(** * kuma-mieru: the resilient HTTP client (customFetch / makeRequest)

    A shallow embedding of the request layer of kuma-mieru
    (the module that imports [customFetchOptions] and [allowInsecureTls] from
    [./common] and exports [customFetch]), and the properties its
    specification states about it.

    Modelling conventions.
    - JavaScript strings are [string]s.  Header names are HTTP tokens, hence
      ASCII: [toLowerCase] folds [A-Z] and leaves every other character alone.
    - JavaScript numbers that the code only counts with or compares
      ([maxRetries], [retryDelay], [maxRedirects], status codes) are integers
      ([Z]); the two counters start at 0 and are only ever incremented, so
      they are [nat].
    - A plain object used as a map ([Record<string, T>]) is the list of its
      entries in [Object.entries] order; assignment [o[k] = v] is [obj_set].
      Header objects are taken as object literals give them: none has an
      own property named [__proto__].
    - The services of the host (the [URL] constructor, [JSON.parse], UTF-8
      encoding and decoding of a [Buffer]) and the constants the module
      imports are the fields of the class [Host].
    - The transport ([protocol.request] and the network behind it) is an
      oracle answering each request with what settles it: a throw, an
      ["error"], a ["timeout"] before any response, or a complete response.
      Console output, sleeps and the requests made are recorded as a trace
      of events.  A timeout before any response runs the error handler
      twice, so that two retries run side by side; the trace lists the
      events of the first, then those of the second, although in time they
      interleave.

    The repository also holds an earlier revision of the module, which
    accumulates the body as a string, hard-codes its retry defaults and has no
    [arrayBuffer]; its handlers are those modelled here. *)

From Stdlib Require Import String Ascii List ZArith Bool Lia Arith.
Import ListNotations.

Local Open Scope string_scope.
Local Open Scope list_scope.

(** ** Strings *)

(** [String.prototype.toLowerCase], on ASCII. *)
Definition lower_ascii (c : ascii) : ascii :=
  let n := nat_of_ascii c in
  if ((65 <=? n) && (n <=? 90))%nat then ascii_of_nat (n + 32) else c.

Fixpoint toLowerCase (s : string) : string :=
  match s with
  | EmptyString => EmptyString
  | String c s' => String (lower_ascii c) (toLowerCase s')
  end.

(** [s.startsWith(p)]. *)
Definition startsWith (s p : string) : bool := String.prefix p s.

(** Truthiness of a string: only the empty string is falsy. *)
Definition nonEmpty (s : string) : bool :=
  match s with EmptyString => false | String _ _ => true end.

(** [xs.join(sep)]. *)
Fixpoint join (sep : string) (xs : list string) : string :=
  match xs with
  | [] => ""
  | [x] => x
  | x :: rest => x ++ sep ++ join sep rest
  end.

(** ** Plain objects as ordered maps *)

Definition Obj (A : Type) : Type := list (string * A).

Definition keys {A} (o : Obj A) : list string := map fst o.

Fixpoint obj_get {A} (k : string) (o : Obj A) : option A :=
  match o with
  | [] => None
  | (k', v) :: o' => if String.eqb k' k then Some v else obj_get k o'
  end.

(** [o[k] = v]: an existing property keeps its place, a new one goes last. *)
Fixpoint obj_set {A} (k : string) (v : A) (o : Obj A) : Obj A :=
  match o with
  | [] => [(k, v)]
  | (k', v') :: o' =>
      if String.eqb k' k then (k', v) :: o' else (k', v') :: obj_set k v o'
  end.

(** ** Header normalisation (makeRequest, "Preserve original header case for
    Cloudflare Access") *)

Definition isCfAccess (key : string) : bool :=
  startsWith (toLowerCase key) "cf-access-".

(** The body of the [for (const [key, value] of Object.entries(...))] loop. *)
Definition normalizeEntry (headers : Obj string) (entry : string * string)
  : Obj string :=
  let '(key, value) := entry in
  if isCfAccess key
  then obj_set key value headers
  else obj_set (toLowerCase key) value headers.

(** [const headers = {}; if (mergedOptions.headers) for (...) ...]:
    [None] is a falsy [mergedOptions.headers]. *)
Definition normalizeHeaders (mergedHeaders : option (Obj string)) : Obj string :=
  match mergedHeaders with
  | Some entries => fold_left normalizeEntry entries []
  | None => []
  end.

(** ** Values of the host *)

(** An [Error] object as the module reads it: [name], [message] and the
    optional [code] of a [NodeError]. *)
Record NodeError : Type := mkError {
  err_name : string;
  err_message : string;
  err_code : option string
}.

(** What a [catch] clause may receive: an [Error], or some other value. *)
Inductive Thrown : Type :=
| ThrownError (e : NodeError)
| ThrownValue.

(** A settled promise. *)
Inductive Settled (A : Type) : Type :=
| Fulfilled (a : A)
| RejectedWith (e : NodeError).
Arguments Fulfilled {A} a.
Arguments RejectedWith {A} e.

Definition Buffer : Type := list Byte.byte.

(** [Buffer.concat(chunks)]. *)
Definition Buffer_concat (chunks : list Buffer) : Buffer := concat chunks.

(** The two members of a parsed [URL] the module reads. *)
Record URL : Type := mkURL {
  protocol : string;
  href : string          (* [toString()] *)
}.

(** Services of the runtime and the constants imported from [./common]
    (which derives them from the environment and package.json). *)
Class Host : Type := {
  JSONValue : Type;
  (** [JSON.parse(text)]: the value, or what it throws. *)
  JSON_parse : string -> JSONValue + Thrown;
  (** [new URL(input, base)]: the URL, or the [TypeError] it throws. *)
  URL_new : string -> option string -> URL + NodeError;
  (** [Buffer.from(s, "utf8")] and [buf.toString("utf8")]. *)
  Buffer_from_utf8 : string -> Buffer;
  Buffer_toString_utf8 : Buffer -> string;
  (** [customFetchOptions] *)
  customFetchOptions_headers : Obj string;
  customFetchOptions_maxRetries : Z;
  customFetchOptions_retryDelay : Z;
  customFetchOptions_timeout : Z;
  (** [allowInsecureTls] *)
  allowInsecureTls : bool
}.

(** ** Request options: [RequestInit & RetryOptions] *)

(** An own property that may be missing, or present with value [undefined]:
    object spread copies the second but not the first. *)
Inductive Field (A : Type) : Type :=
| Absent
| Undefined
| Present (a : A).
Arguments Absent {A}.
Arguments Undefined {A}.
Arguments Present {A} a.

Record Options : Type := mkOptions {
  maxRetries : option Z;
  retryDelay : option Z;
  timeout : option Z;
  followRedirects : option bool;
  maxRedirects : option Z;
  method : option string;
  headers : Field (Obj string);
  body : option string
}.

(** [options = {}] *)
Definition noOptions : Options :=
  mkOptions None None None None None None Absent None.

(** [x = d] in a destructuring pattern, and [x || d] on strings. *)
Definition orDefault {A} (x : option A) (d : A) : A :=
  match x with Some a => a | None => d end.

Definition orString (x : option string) (d : string) : string :=
  match x with
  | Some s => if nonEmpty s then s else d
  | None => d
  end.

Definition DEFAULT_FOLLOW_REDIRECTS : bool := true.
Definition DEFAULT_MAX_REDIRECTS : Z := 5.

(** The arguments of one activation of [makeRequest]. *)
Record Call : Type := mkCall {
  url : string;
  options : Options;
  retryCount : nat;
  redirectCount : nat
}.

(** ** The transport *)

Record TlsOptions : Type := mkTls {
  rejectUnauthorized : bool;
  minVersion : string;
  maxVersion : string;
  ciphers : string
}.

(** What is handed to [protocol.request] and written to the request:
    [req_tls] is present exactly when [protocol] is [https]. *)
Record ClientRequest : Type := mkRequest {
  req_url : string;
  req_method : string;
  req_headers : Obj string;
  req_timeout : Z;
  req_tls : option TlsOptions;
  req_body : option string     (* [req.write(body)], when the body is truthy *)
}.

(** What node sends of the [headers] option: [ClientRequest] calls
    [setHeader(name, value)] for each key of the object, in order, and
    [setHeader] files the pair under the lower-cased name, so of names that
    differ only in letter case the one set last stays, in the place of the
    first; the header lines are written from that table, one per entry. *)
Definition setHeader (table : Obj (string * string)) (name value : string)
  : Obj (string * string) :=
  obj_set (toLowerCase name) (name, value) table.

Definition headerLines (r : ClientRequest) : list (string * string) :=
  map snd
    (fold_left (fun table entry => setHeader table (fst entry) (snd entry))
       (req_headers r) []).

(** A value of [res.headers]. *)
Inductive HeaderValue : Type :=
| HString (s : string)
| HArray (xs : list string).

(** [statusCode] and [statusMessage] are [null] until the parser has read
    the status line, from which it sets both. *)
Record IncomingMessage : Type := mkIncoming {
  statusLine : option (Z * string);
  res_headers : Obj HeaderValue
}.

Definition statusCode (res : IncomingMessage) : option Z :=
  option_map fst (statusLine res).

Definition statusMessage (res : IncomingMessage) : option string :=
  option_map snd (statusLine res).

(** An argument of the ["data"] event. *)
Inductive Chunk : Type :=
| BufferChunk (b : Buffer)
| StringChunk (s : string).

(** Which of two retries started side by side settles first. *)
Inductive Racer : Type :=
| Former
| Latter.

(** What settles one attempt.  [Threw]: [protocol.request] refuses its
    arguments (a header name or value that is not allowed, a protocol other
    than http or https) and throws.  [TimedOut]: the socket idles for
    [timeout] ms before any response has begun; [first] tells which of the
    two retries this starts, if any, will settle first. *)
Inductive Outcome : Type :=
| Threw (e : NodeError)
| NetworkError (e : NodeError)                      (* ["error"] *)
| TimedOut (first : Racer)                          (* ["timeout"] *)
| Responded (res : IncomingMessage) (data : list Chunk).  (* ["data"]*, ["end"] *)

(** The transport answers the [n]-th call of [protocol.request] of a call
    tree, the calls being numbered in the order of the trace. *)
Definition Network : Type := nat -> ClientRequest -> Outcome.

(** ** The response object *)

(** [responseBody] is the buffer the closures [text], [json] and
    [arrayBuffer] capture. *)
Record CustomResponse : Type := mkResponse {
  ok : bool;
  status : Z;
  statusText : string;
  resp_headers : Obj string;
  responseBody : Buffer
}.

(** ** Observable effects *)

Inductive Event : Type :=
| WarnInsecureTls
| Dispatch (r : ClientRequest)
| LogFollowingRedirect (n : nat) (limit : Z) (from to : string)
| Destroy
| WarnMaxRedirects (limit : Z) (at_url : string)
| WarnRetry (n : nat) (limit : Z) (at_url : string) (e : NodeError)
| Sleep (ms : Z)
| LogRequestError (at_url : string) (e : NodeError).

(** Module state ([hasShownInsecureTlsWarning]) and the number of calls of
    [protocol.request] made so far. *)
Record State : Type := mkState {
  hasShownInsecureTlsWarning : bool;
  attempts : nat
}.

(** How an attempt ends: the promise settles, or it awaits a further
    activation of [makeRequest] and settles as that one does, or two runs of
    the error handler each await an activation of their own and the promise
    settles as the first of the two to settle does. *)
Inductive Next : Type :=
| Resolve (r : CustomResponse)
| Reject (e : NodeError)
| Retry (c : Call)
| Redirect (c : Call)
| RetryBoth (former latter : Call) (first : Racer).

(** ** makeRequest *)

Section MakeRequest.
Context {host : Host}.

(** The destructured retry options with their defaults. *)
Definition maxRetriesOf (o : Options) : Z :=
  orDefault (maxRetries o) customFetchOptions_maxRetries.
Definition retryDelayOf (o : Options) : Z :=
  orDefault (retryDelay o) customFetchOptions_retryDelay.
Definition timeoutOf (o : Options) : Z :=
  orDefault (timeout o) customFetchOptions_timeout.
Definition followRedirectsOf (o : Options) : bool :=
  orDefault (followRedirects o) DEFAULT_FOLLOW_REDIRECTS.
Definition maxRedirectsOf (o : Options) : Z :=
  orDefault (maxRedirects o) DEFAULT_MAX_REDIRECTS.

(** [mergedOptions.headers] of [{...customFetchOptions, ...fetchOptions}]:
    the caller's [headers] property replaces the default one whole. *)
Definition mergedHeaders (o : Options) : option (Obj string) :=
  match headers o with
  | Absent => Some customFetchOptions_headers
  | Undefined => None
  | Present h => Some h
  end.

(** The request one activation dispatches. *)
Definition clientRequest (c : Call) (parsedUrl : URL) : ClientRequest :=
  let isHttps := String.eqb (protocol parsedUrl) "https:" in
  {| req_url := url c;
     req_method := orString (method (options c)) "GET";
     req_headers := normalizeHeaders (mergedHeaders (options c));
     req_timeout := timeoutOf (options c);
     req_tls :=
       if isHttps
       then Some {| rejectUnauthorized := negb allowInsecureTls;
                    minVersion := "TLSv1.2";
                    maxVersion := "TLSv1.3";
                    ciphers := "HIGH:!aNULL:!MD5" |}
       else None;
     req_body :=
       match body (options c) with
       | Some b => if nonEmpty b then Some b else None
       | None => None
       end |}.

(** The buffer a ["data"] event contributes: a string chunk is encoded. *)
Definition received (chunk : Chunk) : Buffer :=
  match chunk with
  | StringChunk s => Buffer_from_utf8 s
  | BufferChunk b => b
  end.

(** [res.on("data", ...)]: one more buffer pushed on [chunks]. *)
Definition onData (chunks : list Buffer) (chunk : Chunk) : list Buffer :=
  chunks ++ [received chunk].

(** [Object.fromEntries(entries)]. *)
Definition fromEntries {A} (entries : list (string * A)) : Obj A :=
  fold_left (fun o kv => obj_set (fst kv) (snd kv) o) entries [].

(** The response object built at the end of the ["end"] handler. *)
Definition buildResponse (res : IncomingMessage) (chunks : list Buffer)
  : CustomResponse :=
  {| ok :=
       match statusCode res with
       | Some n => if n =? 0 then false else (200 <=? n) && (n <? 300)
       | None => false
       end%Z;
     status := orDefault (statusCode res) 0%Z;
     statusText := orDefault (statusMessage res) "";
     resp_headers :=
       fromEntries
         (map (fun kv =>
                 (fst kv,
                  match snd kv with
                  | HArray xs => join ", " xs
                  | HString s => s
                  end))
              (res_headers res));
     responseBody := Buffer_concat chunks |}.

Definition isRedirectStatus (n : Z) : bool :=
  existsb (Z.eqb n) [301; 302; 303; 307; 308]%Z.

(** Truthiness and string conversion of [res.headers.location]. *)
Definition truthyHeader (v : option HeaderValue) : bool :=
  match v with
  | Some (HString s) => nonEmpty s
  | Some (HArray _) => true
  | None => false
  end.

Definition headerText (v : option HeaderValue) : string :=
  match v with
  | Some (HString s) => s
  | Some (HArray xs) => join "," xs
  | None => "undefined"
  end.

(** [lowerKey !== "content-type" && lowerKey !== "content-length"] *)
Definition keptOn303 (entry : string * string) : bool :=
  let lowerKey := toLowerCase (fst entry) in
  negb (String.eqb lowerKey "content-type")
  && negb (String.eqb lowerKey "content-length").

(** The header set forwarded after a 303: the caller's own entries without
    [content-type] and [content-length]. *)
Definition redirectHeaders303 (o : Options) : Obj string :=
  match headers o with
  | Present h =>
      fold_left
        (fun redirectHeaders entry =>
           if keptOn303 entry
           then obj_set (fst entry) (snd entry) redirectHeaders
           else redirectHeaders)
        h []
  | _ => []
  end.

(** [{...options, method: "GET", body: undefined, headers: redirectHeaders}] *)
Definition redirectOptions303 (o : Options) : Options :=
  {| maxRetries := maxRetries o;
     retryDelay := retryDelay o;
     timeout := timeout o;
     followRedirects := followRedirects o;
     maxRedirects := maxRedirects o;
     method := Some "GET";
     headers := Present (redirectHeaders303 o);
     body := None |}.

(** [res.statusCode === n] *)
Definition statusIs (res : IncomingMessage) (n : Z) : bool :=
  match statusCode res with
  | Some k => (k =? n)%Z
  | None => false
  end.

(** [res.on("end", ...)] *)
Definition onEnd (c : Call) (res : IncomingMessage) (chunks : list Buffer)
  : list Event * Next :=
  let final := Resolve (buildResponse res chunks) in
  if followRedirectsOf (options c)
     && isRedirectStatus (orDefault (statusCode res) 0%Z)
  then
    let location := obj_get "location" (res_headers res) in
    if truthyHeader location
       && (Z.of_nat (redirectCount c) <? maxRedirectsOf (options c))%Z
    then
      ([LogFollowingRedirect (redirectCount c + 1) (maxRedirectsOf (options c))
          (url c) (headerText location);
        Destroy],
       match URL_new (headerText location) (Some (url c)) with
       | inl redirectUrl =>
           let redirectOptions :=
             if statusIs res 303
             then redirectOptions303 (options c)
             else options c in
           Redirect {| url := href redirectUrl;
                       options := redirectOptions;
                       retryCount := retryCount c;
                       redirectCount := redirectCount c + 1 |}
       | inr error => Reject error
       end)
    else
      (if (maxRedirectsOf (options c) <=? Z.of_nat (redirectCount c))%Z
       then [WarnMaxRedirects (maxRedirectsOf (options c)) (url c)]
       else [],
       final)
  else ([], final).

Definition codeIs (e : NodeError) (code : string) : bool :=
  match err_code e with
  | Some k => String.eqb k code
  | None => false
  end.

Definition shouldRetry (c : Call) (error : NodeError) : bool :=
  (Z.of_nat (retryCount c) <? maxRetriesOf (options c))%Z
  && (codeIs error "ECONNRESET"
      || codeIs error "ETIMEDOUT"
      || codeIs error "ECONNREFUSED"
      || codeIs error "EHOSTUNREACH").

(** [req.on("error", ...)] *)
Definition onError (c : Call) (error : NodeError) : list Event * Next :=
  if shouldRetry c error
  then
    ([WarnRetry (retryCount c + 1) (maxRetriesOf (options c)) (url c) error;
      Sleep (retryDelayOf (options c) * (Z.of_nat (retryCount c) + 1))],
     Retry {| url := url c;
              options := options c;
              retryCount := retryCount c + 1;
              redirectCount := redirectCount c |})
  else ([LogRequestError (url c) error], Reject error).

Definition timeoutError : NodeError :=
  {| err_name := "Error"; err_message := "请求超时"; err_code := Some "ETIMEDOUT" |}.

(** The error node emits on a request whose socket closes before any
    response. *)
Definition socketHangUp : NodeError :=
  {| err_name := "Error";
     err_message := "socket hang up";
     err_code := Some "ECONNRESET" |}.

(** [req.on("timeout", ...)], no response having begun: [req.destroy()],
    then [req.emit("error", error)] runs the error handler on the
    synthesized error; when the destroyed socket closes, node emits
    ["error"] itself and the handler runs once more, on [socketHangUp].
    Both runs find the same [retryCount]: either each sleeps and retries,
    or the first rejects and the second, which rejects too, comes late. *)
Definition onTimeout (c : Call) (first : Racer) : list Event * Next :=
  let '(events, next) := onError c timeoutError in
  let '(events', next') := onError c socketHangUp in
  (Destroy :: events ++ events',
   match next, next' with
   | Retry former, Retry latter => RetryBoth former latter first
   | _, _ => next
   end).

(** What the attempt's event does to the promise: a throw in the executor
    rejects it, otherwise the handler of the event runs. *)
Definition handle (c : Call) (outcome : Outcome) : list Event * Next :=
  match outcome with
  | Threw error => ([], Reject error)
  | NetworkError error => onError c error
  | TimedOut first => onTimeout c first
  | Responded res data => onEnd c res (fold_left onData data [])
  end.

(** [isHttps && allowInsecureTls && !hasShownInsecureTlsWarning] *)
Definition warnsInsecureTls (st : State) (parsedUrl : URL) : bool :=
  String.eqb (protocol parsedUrl) "https:"
  && allowInsecureTls
  && negb (hasShownInsecureTlsWarning st).

(** The state once [protocol.request] has been called: the latch is set if
    the warning was given, and one more call is counted. *)
Definition dispatched (st : State) (parsedUrl : URL) : State :=
  {| hasShownInsecureTlsWarning :=
       hasShownInsecureTlsWarning st || warnsInsecureTls st parsedUrl;
     attempts := S (attempts st) |}.

(** A request is made unless [protocol.request] throws. *)
Definition made (req : ClientRequest) (outcome : Outcome) : list Event :=
  match outcome with
  | Threw _ => []
  | _ => [Dispatch req]
  end.

(** One activation of [makeRequest] up to the point where its promise
    settles or awaits the next activation. *)
Definition attempt (net : Network) (st : State) (c : Call)
  : State * list Event * Next :=
  match URL_new (url c) None with
  | inr error => (st, [], Reject error)
  | inl parsedUrl =>
      let req := clientRequest c parsedUrl in
      let outcome := net (attempts st) req in
      let '(events, next) := handle c outcome in
      (dispatched st parsedUrl,
       (if warnsInsecureTls st parsedUrl then [WarnInsecureTls] else [])
       ++ made req outcome ++ events,
       next)
  end.

(** What a whole call yields: final state, trace, settlement. *)
Definition Run : Type := State * list Event * Settled CustomResponse.

(** The trace of an activation put before the run of the one it awaits. *)
Definition after (events : list Event) (r : option Run) : option Run :=
  match r with
  | Some (st', events', result) => Some (st', events ++ events', result)
  | None => None
  end.

(** Two activations awaited by two runs of one handler: both run, and the
    promise takes the settlement of the one that settles first. *)
Definition race (first : Racer) (former : option Run)
  (latter : State -> option Run) : option Run :=
  match former with
  | Some (st1, events1, result1) =>
      match latter st1 with
      | Some (st2, events2, result2) =>
          Some (st2, events1 ++ events2,
                match first with Former => result1 | Latter => result2 end)
      | None => None
      end
  | None => None
  end.

(** [makeRequest], the recursion bounded by [fuel] nested activations. *)
Fixpoint makeRequestFuel (fuel : nat) (net : Network) (st : State) (c : Call)
  : option Run :=
  match fuel with
  | O => None
  | S fuel' =>
      let '(st', events, next) := attempt net st c in
      match next with
      | Resolve r => Some (st', events, Fulfilled r)
      | Reject e => Some (st', events, RejectedWith e)
      | Retry c' => after events (makeRequestFuel fuel' net st' c')
      | Redirect c' => after events (makeRequestFuel fuel' net st' c')
      | RetryBoth former latter first =>
          after events
            (race first (makeRequestFuel fuel' net st' former)
               (fun st1 => makeRequestFuel fuel' net st1 latter))
      end
  end.

(** How deep a call may still nest activations: what is left of both
    budgets. *)
Definition budget (c : Call) : nat :=
  Z.to_nat (maxRetriesOf (options c) - Z.of_nat (retryCount c))
  + Z.to_nat (maxRedirectsOf (options c) - Z.of_nat (redirectCount c)).

Definition makeRequest (net : Network) (st : State) (c : Call) : option Run :=
  makeRequestFuel (S (budget c)) net st c.

(** [customFetch(url, options)] *)
Definition customFetch (net : Network) (st : State) (url : string)
  (options : Options) : option Run :=
  makeRequest net st (mkCall url options 0 0).

(** *** Body accessors *)

(** [text: async () => responseBody.toString("utf8")] *)
Definition text (r : CustomResponse) : Settled string :=
  Fulfilled (Buffer_toString_utf8 (responseBody r)).

(** [json: async () => { try { return JSON.parse(...) } catch ... }] *)
Definition json (r : CustomResponse) : Settled JSONValue :=
  match JSON_parse (Buffer_toString_utf8 (responseBody r)) with
  | inl value => Fulfilled value
  | inr error =>
      RejectedWith
        {| err_name := "Error";
           err_message :=
             "Failed to parse JSON: "
             ++ match error with
                | ThrownError e => err_message e
                | ThrownValue => "Unknown error"
                end;
           err_code := None |}
  end.

(** [arrayBuffer]: a copy of the bytes the buffer views. *)
Definition arrayBuffer (r : CustomResponse) : Settled Buffer :=
  Fulfilled (responseBody r).

Inductive Accessor : Type := CallText | CallJson | CallArrayBuffer.

Inductive Answer : Type :=
| TextAnswer (s : Settled string)
| JsonAnswer (v : Settled JSONValue)
| BytesAnswer (b : Settled Buffer).

(** What the accessor [a] of the response object [r] answers. *)
Definition answer (a : Accessor) (r : CustomResponse) : Answer :=
  match a with
  | CallText => TextAnswer (text r)
  | CallJson => JsonAnswer (json r)
  | CallArrayBuffer => BytesAnswer (arrayBuffer r)
  end.

(** *** The response object in use

    [responseBody] is a [Buffer], which is a view of [byteLength] bytes at
    [byteOffset] of an [ArrayBuffer]; a small buffer shares that array
    buffer with others.  The three closures read through the view each time
    they are called, and [arrayBuffer] hands the caller a new array buffer,
    which the caller may write to.  [Memory] is the list of the array
    buffers allocated so far, an address being a position in it. *)
Definition Memory : Type := list Buffer.

Record BufferView : Type := mkView {
  view_buffer : nat;              (* the address of [responseBody.buffer] *)
  byteOffset : nat;
  byteLength : nat
}.

Definition arrayBufferAt (m : Memory) (address : nat) : Buffer :=
  nth address m [].

(** The bytes a view shows. *)
Definition viewed (m : Memory) (v : BufferView) : Buffer :=
  firstn (byteLength v) (skipn (byteOffset v) (arrayBufferAt m (view_buffer v))).

(** [buffer.slice(begin, end)]: a new array buffer that holds a copy of the
    bytes from [begin] up to [end]. *)
Definition ArrayBuffer_slice (m : Memory) (address begin final : nat)
  : nat * Memory :=
  (length m,
   m ++ [firstn (final - begin) (skipn begin (arrayBufferAt m address))]).

(** [bytes[i] = x] on a typed array: an index out of range is ignored. *)
Fixpoint setByte (bytes : Buffer) (i : nat) (x : Byte.byte) : Buffer :=
  match bytes, i with
  | [], _ => []
  | _ :: rest, O => x :: rest
  | b :: rest, S j => b :: setByte rest j x
  end.

(** [new Uint8Array(buffer)[i] = x], for the array buffer at [address]. *)
Fixpoint overwrite (m : Memory) (address i : nat) (x : Byte.byte) : Memory :=
  match m, address with
  | [], _ => []
  | bytes :: rest, O => setByte bytes i x :: rest
  | bytes :: rest, S a => bytes :: overwrite rest a i x
  end.

(** The response object [r] with the bytes its closures would read now. *)
Definition reading (r : CustomResponse) (bytes : Buffer) : CustomResponse :=
  {| ok := ok r;
     status := status r;
     statusText := statusText r;
     resp_headers := resp_headers r;
     responseBody := bytes |}.

(** What a caller does with a response object: it calls an accessor, or it
    writes the byte [x] at index [i] of the [k]-th array buffer it got from
    [arrayBuffer]. *)
Inductive Use : Type :=
| Invoke (a : Accessor)
| Overwrite (k i : nat) (x : Byte.byte).

(** The memory, and the addresses [arrayBuffer] has handed over. *)
Record Session : Type := mkSession {
  memory : Memory;
  handed : list nat
}.

(** One use of the response object [r] whose [responseBody] is the view
    [body]: the answer, when the use is a call, and the session after it. *)
Definition use (r : CustomResponse) (body : BufferView) (s : Session)
  (u : Use) : option Answer * Session :=
  let now := reading r (viewed (memory s) body) in
  match u with
  | Invoke CallText => (Some (TextAnswer (text now)), s)
  | Invoke CallJson => (Some (JsonAnswer (json now)), s)
  | Invoke CallArrayBuffer =>
      let '(address, m) :=
        ArrayBuffer_slice (memory s) (view_buffer body) (byteOffset body)
          (byteOffset body + byteLength body) in
      (Some (BytesAnswer (Fulfilled (arrayBufferAt m address))),
       {| memory := m; handed := handed s ++ [address] |})
  | Overwrite k i x =>
      (None,
       match nth_error (handed s) k with
       | Some address =>
           {| memory := overwrite (memory s) address i x;
              handed := handed s |}
       | None => s
       end)
  end.

Fixpoint useAll (r : CustomResponse) (body : BufferView) (s : Session)
  (uses : list Use) : list (option Answer) * Session :=
  match uses with
  | [] => ([], s)
  | u :: rest =>
      let '(a, s') := use r body s u in
      let '(answers, s'') := useAll r body s' rest in
      (a :: answers, s'')
  end.

(** What a session keeps true: the array buffers handed over were allocated
    after the one the body is in, which is as it was. *)
Definition untouched (m : Memory) (body : BufferView) (s : Session) : Prop :=
  (length m <= length (memory s))%nat
  /\ (forall address, In address (handed s) -> (length m <= address)%nat)
  /\ arrayBufferAt (memory s) (view_buffer body)
     = arrayBufferAt m (view_buffer body).

(** What a first call would answer to each use. *)
Definition firstAnswer (r : CustomResponse) (u : Use) : option Answer :=
  match u with
  | Invoke a => Some (answer a r)
  | Overwrite _ _ _ => None
  end.

End MakeRequest.

(** The host [h] with another [JSON.parse]. *)
Definition withJSON (h : Host) (V : Type) (parse : string -> V + Thrown)
  : Host :=
  {| JSONValue := V;
     JSON_parse := parse;
     URL_new := @URL_new h;
     Buffer_from_utf8 := @Buffer_from_utf8 h;
     Buffer_toString_utf8 := @Buffer_toString_utf8 h;
     customFetchOptions_headers := @customFetchOptions_headers h;
     customFetchOptions_maxRetries := @customFetchOptions_maxRetries h;
     customFetchOptions_retryDelay := @customFetchOptions_retryDelay h;
     customFetchOptions_timeout := @customFetchOptions_timeout h;
     allowInsecureTls := @allowInsecureTls h |}.

(** ** A host and some networks to run the model on *)

Definition dquote : string := String (ascii_of_nat 34) EmptyString.

(** The document [{"a":1}]. *)
Definition doc_a1 : string := "{" ++ dquote ++ "a" ++ dquote ++ ":1}".

#[warnings="-register-all"]
Inductive Json : Type :=
| JNull
| JNumber (n : Z)
| JString (s : string)
| JObject (members : list (string * Json)).

Definition hostChar (c : ascii) : bool :=
  let n := nat_of_ascii c in
  ((97 <=? n) && (n <=? 122) || (48 <=? n) && (n <=? 57)
   || (n =? 45) || (n =? 46))%nat.

Fixpoint hostOk (s : string) (seen : bool) : bool :=
  match s with
  | EmptyString => seen
  | String c s' =>
      if Ascii.eqb c "/"%char then seen else hostChar c && hostOk s' true
  end.

(** A [URL] constructor for absolute http(s) URLs with a plain lower-case
    host, which the real one leaves as they are; it refuses anything else. *)
Definition exampleURL (input : string) (base : option string)
  : URL + NodeError :=
  if startsWith input "https://"
     && hostOk (substring 8 (String.length input) input) false
  then inl (mkURL "https:" input)
  else if startsWith input "http://"
          && hostOk (substring 7 (String.length input) input) false
  then inl (mkURL "http:" input)
  else inr (mkError "TypeError" "Invalid URL" (Some "ERR_INVALID_URL")).

(** A [JSON.parse] that knows two documents. *)
Definition exampleParse (s : string) : Json + Thrown :=
  if String.eqb s doc_a1 then inl (JObject [("a", JNumber 1)])
  else if String.eqb s "null" then inl JNull
  else inr (ThrownError (mkError "SyntaxError" "Unexpected token" None)).

(** The defaults of [./common] with an empty environment; ASCII bodies. *)
Definition exampleHost : Host :=
  {| JSONValue := Json;
     JSON_parse := exampleParse;
     URL_new := exampleURL;
     Buffer_from_utf8 := list_byte_of_string;
     Buffer_toString_utf8 := string_of_list_byte;
     customFetchOptions_headers :=
       [("User-Agent", "Kuma-Mieru/1.0.0");
        ("Accept", "text/html,application/json,*/*");
        ("Accept-Encoding", "");
        ("Connection", "keep-alive")];
     customFetchOptions_maxRetries := 3;
     customFetchOptions_retryDelay := 500;
     customFetchOptions_timeout := 8000;
     allowInsecureTls := false |}.

Definition freshState : State := mkState false 0.

Definition plainResponse (code : Z) (reason : string) : IncomingMessage :=
  mkIncoming (Some (code, reason)) [("content-type", HString "text/plain")].

Definition redirectTo (code : Z) (location : string) : IncomingMessage :=
  mkIncoming (Some (code, "Redirect")) [("location", HString location)].

Definition connectionReset : NodeError :=
  mkError "Error" "read ECONNRESET" (Some "ECONNRESET").

Definition notFoundError : NodeError :=
  mkError "Error" "getaddrinfo ENOTFOUND" (Some "ENOTFOUND").

(** A first activation, as [customFetch] starts it, and its parsed URL. *)
Definition callA : Call := mkCall "http://a.example/" noOptions 0 0.
Definition urlA : URL := mkURL "http:" "http://a.example/".
Definition urlB : URL := mkURL "http:" "http://b.example/next".

(** Every attempt is answered with the same status and an empty body. *)
Definition netStatus (code : Z) : Network :=
  fun _ _ => Responded (plainResponse code "") [].

(** The first [k] attempts are reset, the next one is answered 200. *)
Definition netResetThenOk (k : nat) : Network :=
  fun n _ =>
    if (n <? k)%nat then NetworkError connectionReset
    else Responded (plainResponse 200 "OK")
           [BufferChunk (list_byte_of_string doc_a1)].

(** Every attempt is reset. *)
Definition netAlwaysReset : Network := fun _ _ => NetworkError connectionReset.

(** Every attempt is answered 302 with a new location. *)
Definition netAlways302 : Network :=
  fun _ _ => Responded (redirectTo 302 "http://b.example/next") [].

(** A 302 to another host, which answers 200 with [{"a":1}]. *)
Definition netMovedThenOk : Network :=
  fun n _ =>
    match n with
    | O => Responded (redirectTo 302 "http://b.example/next") []
    | _ => Responded (plainResponse 200 "OK")
             [BufferChunk (list_byte_of_string doc_a1)]
    end.

(** A 302 whose Location no URL parser accepts (an unclosed IPv6 host). *)
Definition netMovedNowhere : Network :=
  fun _ _ => Responded (redirectTo 302 "http://[") [].

(** A 303 to another host, which answers 200. *)
Definition netSeeOther : Network :=
  fun n _ =>
    match n with
    | O => Responded (redirectTo 303 "http://b.example/next") []
    | _ => Responded (plainResponse 200 "OK") []
    end.

(** No request is ever answered: each one times out, and of the two
    retries this starts the second settles first. *)
Definition netNeverAnswers : Network := fun _ _ => TimedOut Latter.

(** The first request times out; of the two retries the first is reset and
    the second answered 200, the first to settle being as [first] says. *)
Definition netTimeoutThenRace (first : Racer) : Network :=
  fun n _ =>
    match n with
    | O => TimedOut first
    | S O => NetworkError connectionReset
    | _ => Responded (plainResponse 200 "OK") []
    end.

Definition invalidHeader : NodeError :=
  mkError "TypeError" "Invalid character in header content"
    (Some "ERR_INVALID_CHAR").

(** [protocol.request] refuses every request. *)
Definition netRefuses : Network := fun _ _ => Threw invalidHeader.

(** A 200 whose body, [{"a":1}], comes in two chunks. *)
Definition netChunked : Network :=
  fun _ _ =>
    Responded (plainResponse 200 "OK")
      [BufferChunk (list_byte_of_string ("{" ++ dquote ++ "a"));
       BufferChunk (list_byte_of_string (dquote ++ ":1}"))].

(** A response that has no status line. *)
Definition netNoStatus : Network :=
  fun _ _ => Responded (mkIncoming None []) [].

(** One retry, after 100 ms. *)
Definition oneRetry : Options :=
  mkOptions (Some 1%Z) (Some 100%Z) None None None None Absent None.

(** Four retries. *)
Definition fourRetries : Options :=
  mkOptions (Some 4%Z) (Some 100%Z) None None None None Absent None.



(** A POST with a JSON body and its body headers. *)
Definition postOptions : Options :=
  {| maxRetries := None; retryDelay := None; timeout := None;
     followRedirects := None; maxRedirects := None;
     method := Some "POST";
     headers := Present [("Content-Type", "application/json");
                         ("CF-Access-Client-Id", "id");
                         ("X-Custom", "1")];
     body := Some doc_a1 |}.

(** ** Reading a trace *)

Definition isSleep (e : Event) : bool :=
  match e with Sleep _ => true | _ => false end.

Definition isDispatch (e : Event) : bool :=
  match e with Dispatch _ => true | _ => false end.

Definition isFollow (e : Event) : bool :=
  match e with LogFollowingRedirect _ _ _ _ => true | _ => false end.

Definition isTlsWarning (e : Event) : bool :=
  match e with WarnInsecureTls => true | _ => false end.

Definition isLimitWarning (e : Event) : bool :=
  match e with WarnMaxRedirects _ _ => true | _ => false end.

(** How many events of a trace satisfy [p]. *)
Definition count (p : Event -> bool) (trace : list Event) : nat :=
  length (filter p trace).

(** The activations an attempt awaits. *)
Definition awaits (next : Next) (c' : Call) : Prop :=
  match next with
  | Retry c | Redirect c => c' = c
  | RetryBoth former latter _ => c' = former \/ c' = latter
  | Resolve _ | Reject _ => False
  end.

(** No request of the call tree times out before a response has begun. *)
Definition neverTimesOut (net : Network) : Prop :=
  forall n req first, net n req <> TimedOut first.

(** Every request does. *)
Definition alwaysTimesOut (net : Network) : Prop :=
  forall n req, exists first, net n req = TimedOut first.


(** What is left of the two budgets of a call. *)
Definition retriesLeft {host : Host} (c : Call) : nat :=
  Z.to_nat (maxRetriesOf (options c) - Z.of_nat (retryCount c)).

Definition redirectsLeft {host : Host} (c : Call) : nat :=
  Z.to_nat (maxRedirectsOf (options c) - Z.of_nat (redirectCount c)).

(** The name under which the normalisation loop files a header. *)
Definition wireName (key : string) : string :=
  if isCfAccess key then key else toLowerCase key.

(** A response header value as the response object holds it. *)
Definition headerValueText (v : HeaderValue) : string :=
  match v with
  | HArray xs => join ", " xs
  | HString s => s
  end.

(** * The module ./common

    [process.env] is a map from names to optional strings.  [trim] is
    [String.prototype.trim], and [Number] is the conversion [Number(s)]
    read through the schema [z.number().int()], which accepts integers
    only: every other number ([NaN], a fraction, an infinity) is
    [NotInteger]. *)

Module Common.

Definition Env : Type := string -> option string.

Inductive JsNumber : Type :=
| Integer (z : Z)
| NotInteger.

Record RequestPolicy : Type := mkPolicy {
  policy_maxRetries : Z;
  policy_retryDelay : Z;
  policy_timeout : Z
}.

(** What the module exports once it has loaded. *)
Record Exports : Type := mkExports {
  customFetchOptions_headers : Obj string;
  customFetchOptions_policy : RequestPolicy;
  allowInsecureTls : bool;
  isSsrStrictMode : bool
}.

Section Services.
Variable trim : string -> string.
Variable Number : string -> JsNumber.

(** [z.number().int().min(min).max(max)]: the value, or [None] when the
    schema throws. *)
Definition intInRange (min max : Z) (n : JsNumber) : option Z :=
  match n with
  | Integer z => if ((min <=? z) && (z <=? max))%Z then Some z else None
  | NotInteger => None
  end.

(** [envIntWithDefault(defaultValue, min, max)] applied to a variable. *)
Definition envIntWithDefault (defaultValue min max : Z) (value : option string)
  : option Z :=
  intInRange min max
    match value with
    | None => Integer defaultValue
    | Some s => if nonEmpty s then Number s else Integer defaultValue
    end.

(** A variable the preprocessing takes the default for. *)
Definition unset (value : option string) : Prop :=
  value = None \/ value = Some "".

(** [requestPolicySchema.parse({...})] *)
Definition requestPolicy (env : Env) : option RequestPolicy :=
  match envIntWithDefault 3 0 10 (env "REQUEST_RETRY_MAX"),
        envIntWithDefault 500 100 10000 (env "REQUEST_RETRY_DELAY_MS"),
        envIntWithDefault 8000 1000 60000 (env "REQUEST_TIMEOUT_MS") with
  | Some maxRetries, Some retryDelay, Some timeout =>
      Some (mkPolicy maxRetries retryDelay timeout)
  | _, _, _ => None
  end.

(** [if (value?.trim()) headers[name] = value.trim()] *)
Definition setTrimmed (name : string) (value : option string)
  (headers : Obj string) : Obj string :=
  match value with
  | Some v => if nonEmpty (trim v) then obj_set name (trim v) headers
              else headers
  | None => headers
  end.

Definition getCloudflareAccessHeaders (env : Env) : Obj string :=
  setTrimmed "CF-Access-Client-Secret" (env "CF_ACCESS_CLIENT_SECRET")
    (setTrimmed "CF-Access-Client-Id" (env "CF_ACCESS_CLIENT_ID") []).

(** [{...target, ...source}] *)
Definition spread {A} (target source : Obj A) : Obj A :=
  fold_left (fun o entry => obj_set (fst entry) (snd entry) o) source target.

(** [customFetchOptions.headers], for the version of package.json. *)
Definition defaultHeaders (version : string) (env : Env) : Obj string :=
  spread
    [("User-Agent",
      ("Kuma-Mieru/" ++ version
       ++ " (https://github.com/Alice39s/kuma-mieru)")%string);
     ("Accept", "text/html,application/json,*/*");
     ("Accept-Encoding", "");
     ("Connection", "keep-alive")]
    (getCloudflareAccessHeaders env).

(** [z.enum(["true", "false"]).optional().default("false")
      .transform(value => value === "true")], applied to
    [process.env.NAME?.toLowerCase()]. *)
Definition booleanFlag (value : option string) : option bool :=
  match option_map toLowerCase value with
  | None => Some false
  | Some s =>
      if String.eqb s "true" then Some true
      else if String.eqb s "false" then Some false
      else None
  end.

(** Loading the module: [None] when one of its schemas throws. *)
Definition load (version : string) (env : Env) : option Exports :=
  match requestPolicy env with
  | None => None
  | Some policy =>
      match booleanFlag (env "ALLOW_INSECURE_TLS") with
      | None => None
      | Some insecure =>
          match booleanFlag (env "SSR_STRICT_MODE") with
          | None => None
          | Some strict =>
              Some (mkExports (defaultHeaders version env) policy insecure
                      strict)
          end
      end
  end.

End Services.

(** ** ensureUTCTimezone *)

Definition isDigit (c : ascii) : bool :=
  let n := nat_of_ascii c in ((48 <=? n) && (n <=? 57))%nat.

Definition isSign (c : ascii) : bool :=
  Ascii.eqb c "+" || Ascii.eqb c "-".

(** The characters of a string, last first. *)
Definition backwards (s : string) : list ascii :=
  rev (list_ascii_of_string s).

(** [s.endsWith("Z")] *)
Definition endsWithZ (s : string) : bool :=
  match backwards s with
  | c :: _ => Ascii.eqb c "Z"
  | [] => false
  end.

(** A match of [[+-]\d{2}\d{2}$], on the characters last first. *)
Definition plainOffset (reversed : list ascii) : bool :=
  match reversed with
  | d4 :: d3 :: d2 :: d1 :: sign :: _ =>
      isSign sign && isDigit d1 && isDigit d2 && isDigit d3 && isDigit d4
  | _ => false
  end.

(** A match of [[+-]\d{2}:\d{2}$]. *)
Definition colonOffset (reversed : list ascii) : bool :=
  match reversed with
  | d4 :: d3 :: colon :: d2 :: d1 :: sign :: _ =>
      isSign sign && isDigit d1 && isDigit d2 && Ascii.eqb colon ":"
      && isDigit d3 && isDigit d4
  | _ => false
  end.

(** [/[+-]\d{2}:?\d{2}$/.test(s)] *)
Definition hasOffset (s : string) : bool :=
  colonOffset (backwards s) || plainOffset (backwards s).

(** [s.replace("Z", " +0000")]: the first occurrence only. *)
Fixpoint replaceFirstZ (s : string) : string :=
  match s with
  | EmptyString => EmptyString
  | String c rest =>
      if Ascii.eqb c "Z" then (" +0000" ++ rest)%string
      else String c (replaceFirstZ rest)
  end.

(** [s.replace(/([+-]\d{2}):(\d{2})$/, "$1$2")] *)
Definition dropOffsetColon (s : string) : string :=
  match backwards s with
  | d4 :: d3 :: colon :: rest =>
      if colonOffset (d4 :: d3 :: colon :: rest)
      then string_of_list_ascii (rev (d4 :: d3 :: rest))
      else s
  | _ => s
  end.

Definition ensureUTCTimezone (dateStr : string) : string :=
  if negb (nonEmpty dateStr) then dateStr
  else if endsWithZ dateStr || hasOffset dateStr
       then dropOffsetColon (replaceFirstZ dateStr)
       else (dateStr ++ " +0000")%string.

(** [s.includes("Z")], and whether a Z stands before the last character. *)
Definition includesZ (s : string) : bool :=
  existsb (Ascii.eqb "Z") (list_ascii_of_string s).

Definition interiorZ (s : string) : bool :=
  match backwards s with
  | _ :: before => existsb (Ascii.eqb "Z") before
  | [] => false
  end.

(** A numeric offset without colon, [+hhmm] or [-hhmm], ends the string. *)
Definition endsWithPlainOffset (s : string) : bool :=
  plainOffset (backwards s).

End Common.

(** The host [h] with the constants that [./common] exports. *)
Definition withCommon (h : Host) (m : Common.Exports) : Host :=
  {| JSONValue := @JSONValue h;
     JSON_parse := @JSON_parse h;
     URL_new := @URL_new h;
     Buffer_from_utf8 := @Buffer_from_utf8 h;
     Buffer_toString_utf8 := @Buffer_toString_utf8 h;
     customFetchOptions_headers := Common.customFetchOptions_headers m;
     customFetchOptions_maxRetries :=
       Common.policy_maxRetries (Common.customFetchOptions_policy m);
     customFetchOptions_retryDelay :=
       Common.policy_retryDelay (Common.customFetchOptions_policy m);
     customFetchOptions_timeout :=
       Common.policy_timeout (Common.customFetchOptions_policy m);
     allowInsecureTls := Common.allowInsecureTls m |}.

(** * The script generate-config

    The pure helpers of the script.  [siteMetaSchema], [DEFAULT_SITE_META]
    and [getString] belong to modules that are not modelled:
    the schema's [parse] and the defaults are parameters, and an override
    is whatever [getString] resolved. *)

Module GenerateConfig.

(** What [getString] resolves: a value, when the variable is set, and the
    place it was read from. *)
Record Resolved : Type := mkResolved {
  resolved_value : option string;
  resolved_source : option string
}.

Record StringOverride : Type := mkOverride {
  value : option string;
  isDefined : bool;
  source : option string
}.

Definition toOverride (resolved : Resolved) : StringOverride :=
  {| value := resolved_value resolved;
     isDefined := match resolved_value resolved with
                  | Some _ => true
                  | None => false
                  end;
     source := resolved_source resolved |}.

Record Overrides : Type := mkOverrides {
  title_override : StringOverride;
  description_override : StringOverride;
  icon_override : StringOverride
}.

(** [Partial<Pick<SiteMeta, "title" | "description" | "icon">>] *)
Record RemoteMeta : Type := mkRemote {
  remote_title : option string;
  remote_description : option string;
  remote_icon : option string
}.

(** The members of [DEFAULT_SITE_META] the script reads. *)
Record DefaultMeta : Type := mkDefaults {
  default_title : string;
  default_description : string;
  default_icon : string
}.

(** The object handed to [siteMetaSchema.parse]. *)
Record SiteMetaInput : Type := mkInput {
  title : string;
  description : string;
  icon : option string;            (* [iconCandidates[0]] *)
  iconCandidates : list string
}.

Section Services.
Variable trim : string -> string.

(** [seen.has(x)] *)
Definition has (seen : list string) (x : string) : bool :=
  existsb (String.eqb x) seen.

(** The body of [for (const source of sources)]: the state is the set
    [seen], in insertion order, and the array [candidates]. *)
Definition addSource (state : list string * list string)
  (source : option string) : list string * list string :=
  match source with
  | None => state
  | Some s =>
      let trimmed := trim s in
      if negb (nonEmpty trimmed) then state
      else if has (fst state) trimmed then state
      else (fst state ++ [trimmed], snd state ++ [trimmed])
  end.

(** [buildIconCandidates] up to its last test. *)
Definition collectIconCandidates (sources : list (option string))
  (defaultIcon : string) : list string * list string :=
  let state := fold_left addSource sources ([], []) in
  if negb (has (fst state) defaultIcon)
  then (fst state ++ [defaultIcon], snd state ++ [defaultIcon])
  else state.

Definition buildIconCandidates (sources : list (option string))
  (defaultIcon : string) : list string :=
  let candidates := snd (collectIconCandidates sources defaultIcon) in
  if Nat.eqb (length candidates) 0 then candidates ++ [defaultIcon]
  else candidates.

(** [x ?? d] *)
Definition orElse (x : option string) (d : string) : string :=
  match x with Some v => v | None => d end.

(** The argument of [siteMetaSchema.parse] in [resolveSiteMeta]. *)
Definition siteMetaInput (defaults : DefaultMeta) (overrides : Overrides)
  (remoteMeta : option RemoteMeta) : SiteMetaInput :=
  let candidates :=
    buildIconCandidates
      [if isDefined (icon_override overrides)
       then value (icon_override overrides) else None;
       match remoteMeta with Some r => remote_icon r | None => None end]
      (default_icon defaults) in
  {| title :=
       if isDefined (title_override overrides)
       then orElse (value (title_override overrides)) ""
       else orElse
              match remoteMeta with Some r => remote_title r | None => None end
              (default_title defaults);
     description :=
       if isDefined (description_override overrides)
       then orElse (value (description_override overrides)) ""
       else orElse
              match remoteMeta with
              | Some r => remote_description r
              | None => None
              end
              (default_description defaults);
     icon := hd_error candidates;
     iconCandidates := candidates |}.

Definition resolveSiteMeta {SiteMeta : Type}
  (siteMetaSchema_parse : SiteMetaInput -> SiteMeta)
  (defaults : DefaultMeta) (overrides : Overrides)
  (remoteMeta : option RemoteMeta) : SiteMeta :=
  siteMetaSchema_parse (siteMetaInput defaults overrides remoteMeta).

(** A source the loop keeps: a string that is not blank. *)
Definition usable (source : option string) : bool :=
  match source with
  | Some s => nonEmpty (trim s)
  | None => false
  end.

End Services.

End GenerateConfig.

(** ** Services and an environment to run ./common on *)

Definition isSpace (c : ascii) : bool :=
  let n := nat_of_ascii c in
  ((n =? 32) || (9 <=? n) && (n <=? 13))%nat.

Fixpoint trimStart (s : string) : string :=
  match s with
  | EmptyString => EmptyString
  | String c rest => if isSpace c then trimStart rest else s
  end.

Definition reverse (s : string) : string :=
  string_of_list_ascii (rev (list_ascii_of_string s)).

(** [trim] for ASCII white space. *)
Definition exampleTrim (s : string) : string :=
  reverse (trimStart (reverse (trimStart s))).

Fixpoint digitsValue (s : string) (acc : Z) : option Z :=
  match s with
  | EmptyString => Some acc
  | String c rest =>
      if Common.isDigit c
      then digitsValue rest (acc * 10 + Z.of_nat (nat_of_ascii c - 48))%Z
      else None
  end.

(** [Number] for strings of decimal digits; it knows no other numeral. *)
Definition exampleNumber (s : string) : Common.JsNumber :=
  match digitsValue s 0%Z with
  | Some z => Common.Integer z
  | None => Common.NotInteger
  end.

(** Two retries, insecure TLS allowed, a client id with blanks around it
    and a blank client secret. *)
Definition exampleEnv : Common.Env :=
  fun name =>
    if String.eqb name "REQUEST_RETRY_MAX" then Some "2"
    else if String.eqb name "ALLOW_INSECURE_TLS" then Some "TRUE"
    else if String.eqb name "CF_ACCESS_CLIENT_ID" then Some " id-123 "
    else if String.eqb name "CF_ACCESS_CLIENT_SECRET" then Some "   "
    else None.

Definition exampleExports : Common.Exports :=
  {| Common.customFetchOptions_headers :=
       [("User-Agent",
         "Kuma-Mieru/1.0.0 (https://github.com/Alice39s/kuma-mieru)");
        ("Accept", "text/html,application/json,*/*");
        ("Accept-Encoding", "");
        ("Connection", "keep-alive");
        ("CF-Access-Client-Id", "id-123")];
     Common.customFetchOptions_policy := Common.mkPolicy 2 500 8000;
     Common.allowInsecureTls := true;
     Common.isSsrStrictMode := false |}.

(** An environment that says nothing about the request policy. *)
Definition otherEnv : Common.Env :=
  fun name =>
    if String.eqb name "ALLOW_INSECURE_TLS" then Some "false"
    else if String.eqb name "CF_ACCESS_CLIENT_ID" then Some "id-123"
    else if String.eqb name "REQUEST_TIMEOUT_MS" then Some ""
    else None.

(** The example host with those constants. *)
Definition loadedHost : Host := withCommon exampleHost exampleExports.

Definition callS : Call := mkCall "https://a.example/" noOptions 0 0.
Definition urlS : URL := mkURL "https:" "https://a.example/".

(** A call that does not follow redirects. *)
Definition callNoFollow : Call :=
  mkCall "http://a.example/"
    (mkOptions None None None (Some false) None None Absent None) 0 0.

(** A response with a multi-valued header. *)
Definition cookieResponse : IncomingMessage :=
  mkIncoming (Some (200%Z, "OK"))
    [("content-type", HString "text/html");
     ("set-cookie", HArray ["a=1"; "b=2"])].

(** * Properties *)

(** ** Strings and objects *)

Lemma lower_ascii_idempotent (c : ascii) :
  lower_ascii (lower_ascii c) = lower_ascii c.
Proof. destruct c as [[] [] [] [] [] [] [] []]; reflexivity. Qed.

Lemma toLowerCase_idempotent (s : string) :
  toLowerCase (toLowerCase s) = toLowerCase s.
Proof.
  induction s as [|c s IH]; simpl.
  - reflexivity.
  - now rewrite lower_ascii_idempotent, IH.
Qed.

Lemma isCfAccess_toLowerCase (key : string) :
  isCfAccess (toLowerCase key) = isCfAccess key.
Proof. unfold isCfAccess. now rewrite toLowerCase_idempotent. Qed.

Lemma keys_obj_set {A} (k0 : string) (v : A) (o : Obj A) (k : string) :
  In k (keys (obj_set k0 v o)) <-> k = k0 \/ In k (keys o).
Proof.
  induction o as [|[k' v'] o IH]; simpl.
  - intuition congruence.
  - destruct (String.eqb_spec k' k0) as [->|Hne]; simpl.
    + intuition congruence.
    + unfold keys in IH. rewrite IH. intuition congruence.
Qed.


Lemma NoDup_keys_obj_set {A} (k0 : string) (v : A) (o : Obj A) :
  NoDup (keys o) -> NoDup (keys (obj_set k0 v o)).
Proof.
  induction o as [|[k' v'] o IH]; simpl; intros Hnd.
  - constructor; [intros [] | constructor].
  - inversion Hnd as [|? ? Hnotin Hnd']; subst.
    destruct (String.eqb_spec k' k0) as [->|Hne]; simpl.
    + now constructor.
    + constructor; [|now apply IH].
      intros Hin. apply (keys_obj_set k0 v o k') in Hin.
      destruct Hin as [->|Hin]; [congruence | contradiction].
Qed.






(** The name under which the loop files an entry. *)
Lemma keys_normalizeEntry (acc : Obj string) (key value k : string) :
  In k (keys (normalizeEntry acc (key, value))) <->
  k = (if isCfAccess key then key else toLowerCase key) \/ In k (keys acc).
Proof.
  unfold normalizeEntry. destruct (isCfAccess key); apply keys_obj_set.
Qed.

Lemma keys_fold_normalizeEntry (entries acc : Obj string) (k : string) :
  In k (keys (fold_left normalizeEntry entries acc)) <->
  In k (keys acc)
  \/ exists key value,
       In (key, value) entries
       /\ k = (if isCfAccess key then key else toLowerCase key).
Proof.
  revert acc. induction entries as [|[key value] entries IH]; intros acc.
  - simpl. split; [auto | intros [H | (? & ? & [] & _)]; exact H].
  - cbn [fold_left]. rewrite IH, keys_normalizeEntry. cbn [In]. split.
    + intros [[-> | H] | (key' & value' & Hin & ->)].
      * right. exists key, value. auto.
      * now left.
      * right. exists key', value'. auto.
    + intros [H | (key' & value' & [Heq | Hin] & ->)].
      * left. now right.
      * inversion Heq; subst. left. now left.
      * right. exists key', value'. auto.
Qed.

(** ** The response object *)

Lemma buildResponse_ok (res : IncomingMessage) (chunks : list Buffer) :
  ok (buildResponse res chunks) = true <->
  (200 <= status (buildResponse res chunks) < 300)%Z.
Proof.
  unfold buildResponse; simpl.
  destruct (statusCode res) as [n|]; simpl.
  - destruct (Z.eqb_spec n 0) as [->|Hn].
    + split; [discriminate | lia].
    + rewrite andb_true_iff, Z.leb_le, Z.ltb_lt. tauto.
  - split; [discriminate | lia].
Qed.

Lemma buildResponse_status (res : IncomingMessage) (chunks : list Buffer) :
  status (buildResponse res chunks) = orDefault (statusCode res) 0%Z.
Proof. reflexivity. Qed.

Lemma isRedirectStatus_iff (n : Z) :
  isRedirectStatus n = true <->
  (n = 301 \/ n = 302 \/ n = 303 \/ n = 307 \/ n = 308)%Z.
Proof.
  unfold isRedirectStatus; simpl.
  rewrite !orb_true_iff, !Z.eqb_eq. intuition discriminate.
Qed.

Lemma redirect_status_not_ok (res : IncomingMessage) (chunks : list Buffer) :
  isRedirectStatus (orDefault (statusCode res) 0%Z) = true ->
  ok (buildResponse res chunks) = false.
Proof.
  intros H. apply isRedirectStatus_iff in H.
  destruct (ok (buildResponse res chunks)) eqn:E; [|reflexivity].
  apply buildResponse_ok in E. rewrite buildResponse_status in E. lia.
Qed.

(** ** One activation *)

Section Properties.
Context {host : Host}.

Lemma attempt_dispatched (net : Network) (st : State) (c : Call)
  (parsedUrl : URL) :
  URL_new (url c) None = inl parsedUrl ->
  attempt net st c =
  (dispatched st parsedUrl,
   (if warnsInsecureTls st parsedUrl then [WarnInsecureTls] else [])
   ++ made (clientRequest c parsedUrl)
        (net (attempts st) (clientRequest c parsedUrl))
   ++ fst (handle c (net (attempts st) (clientRequest c parsedUrl))),
   snd (handle c (net (attempts st) (clientRequest c parsedUrl)))).
Proof.
  intros HU. unfold attempt. rewrite HU. cbv zeta.
  now destruct (handle c (net (attempts st) (clientRequest c parsedUrl))).
Qed.

Lemma attempt_invalid_url (net : Network) (st : State) (c : Call)
  (error : NodeError) :
  URL_new (url c) None = inr error ->
  attempt net st c = (st, [], Reject error).
Proof. intros HU. unfold attempt. now rewrite HU. Qed.

(** The insecure-TLS warning is given once: after an activation that gave
    it, or with the latch already set, no activation gives it. *)
Lemma insecure_tls_warning_one_shot (st : State) (parsedUrl parsedUrl' : URL) :
  warnsInsecureTls st parsedUrl = true
  \/ hasShownInsecureTlsWarning st = true ->
  warnsInsecureTls (dispatched st parsedUrl) parsedUrl' = false.
Proof.
  intros H. unfold warnsInsecureTls at 1. cbn [dispatched hasShownInsecureTlsWarning].
  assert (hasShownInsecureTlsWarning st || warnsInsecureTls st parsedUrl = true)
    as -> by (destruct H as [-> | ->]; [apply orb_true_r | reflexivity]).
  apply andb_false_r.
Qed.

(** The call a run of the error handler retries. *)
Lemma onError_next (c : Call) (error : NodeError) :
  snd (onError c error) =
  if shouldRetry c error
  then Retry (mkCall (url c) (options c) (retryCount c + 1) (redirectCount c))
  else Reject error.
Proof. unfold onError. now destruct (shouldRetry c error). Qed.

(** A timeout is retried whenever a retry is left. *)
Lemma shouldRetry_timeout (c : Call) :
  shouldRetry c timeoutError
  = (Z.of_nat (retryCount c) <? maxRetriesOf (options c))%Z
  /\ shouldRetry c socketHangUp
     = (Z.of_nat (retryCount c) <? maxRetriesOf (options c))%Z.
Proof. unfold shouldRetry. cbn. now rewrite !andb_true_r. Qed.

(** The two runs of the error handler that a timeout causes: two retries of
    the same call while a retry is left, a rejection with the synthesized
    error otherwise. *)
Lemma onTimeout_cases (c : Call) (first : Racer) :
  let retried :=
    mkCall (url c) (options c) (retryCount c + 1) (redirectCount c) in
  let pause :=
    Sleep (retryDelayOf (options c) * (Z.of_nat (retryCount c) + 1)) in
  ((Z.of_nat (retryCount c) < maxRetriesOf (options c))%Z
   /\ onTimeout c first
      = ([Destroy;
          WarnRetry (retryCount c + 1) (maxRetriesOf (options c)) (url c)
            timeoutError;
          pause;
          WarnRetry (retryCount c + 1) (maxRetriesOf (options c)) (url c)
            socketHangUp;
          pause],
         RetryBoth retried retried first))
  \/ ((maxRetriesOf (options c) <= Z.of_nat (retryCount c))%Z
      /\ onTimeout c first
         = ([Destroy;
             LogRequestError (url c) timeoutError;
             LogRequestError (url c) socketHangUp],
            Reject timeoutError)).
Proof.
  cbv zeta. unfold onTimeout, onError.
  destruct (shouldRetry_timeout c) as [-> ->].
  destruct (Z.ltb_spec (Z.of_nat (retryCount c)) (maxRetriesOf (options c)));
    [left | right]; split; auto.
Qed.

Lemma onEnd_never_retries (c : Call) (res : IncomingMessage)
  (chunks : list Buffer) :
  match snd (onEnd c res chunks) with
  | Retry _ | RetryBoth _ _ _ => False
  | _ => True
  end.
Proof.
  unfold onEnd.
  destruct (followRedirectsOf (options c) && _); [|exact I].
  destruct (truthyHeader _ && _); [|exact I].
  simpl. destruct (URL_new _ _); exact I.
Qed.

Lemma onError_never_redirects (c : Call) (error : NodeError) (c' : Call) :
  snd (onError c error) <> Redirect c'.
Proof. rewrite onError_next. destruct (shouldRetry c error); discriminate. Qed.

(** A redirect is followed under the guard of the ["end"] handler, and only
    then. *)
Lemma onEnd_redirect (c : Call) (res : IncomingMessage)
  (chunks : list Buffer) (c' : Call) :
  snd (onEnd c res chunks) = Redirect c' <->
  followRedirectsOf (options c) = true
  /\ isRedirectStatus (orDefault (statusCode res) 0%Z) = true
  /\ truthyHeader (obj_get "location" (res_headers res)) = true
  /\ (Z.of_nat (redirectCount c) < maxRedirectsOf (options c))%Z
  /\ exists redirectUrl,
       URL_new (headerText (obj_get "location" (res_headers res)))
         (Some (url c)) = inl redirectUrl
       /\ c' = {| url := href redirectUrl;
                  options :=
                    if statusIs res 303
                    then redirectOptions303 (options c)
                    else options c;
                  retryCount := retryCount c;
                  redirectCount := redirectCount c + 1 |}.
Proof.
  unfold onEnd.
  destruct (followRedirectsOf (options c)); simpl;
    [|split; [discriminate | intros (? & _); discriminate]].
  destruct (isRedirectStatus _); simpl;
    [|split; [discriminate | intros (_ & ? & _); discriminate]].
  destruct (truthyHeader _); simpl;
    [|split; [discriminate | intros (_ & _ & ? & _); discriminate]].
  destruct (Z.ltb_spec (Z.of_nat (redirectCount c)) (maxRedirectsOf (options c)));
    simpl.
  - destruct (URL_new _ _) as [u|e]; split.
    + intros [= <-]. repeat split; try assumption. now exists u.
    + intros (_ & _ & _ & _ & u' & [= <-] & ->). reflexivity.
    + discriminate.
    + intros (_ & _ & _ & _ & u' & [=] & _).
  - split; [discriminate | intros (_ & _ & _ & ? & _); lia].
Qed.

(** ** Termination: each further activation spends one unit of budget *)

Lemma redirectOptions303_limits (o : Options) :
  maxRetriesOf (redirectOptions303 o) = maxRetriesOf o
  /\ maxRedirectsOf (redirectOptions303 o) = maxRedirectsOf o.
Proof. split; reflexivity. Qed.

Lemma handle_budget (c : Call) (outcome : Outcome) (c' : Call) :
  awaits (snd (handle c outcome)) c' -> (budget c' < budget c)%nat.
Proof.
  assert (retry : forall error, awaits (snd (onError c error)) c' ->
                                (budget c' < budget c)%nat).
  { intros error. rewrite onError_next. unfold shouldRetry.
    destruct (Z.ltb_spec (Z.of_nat (retryCount c)) (maxRetriesOf (options c)));
      simpl; [|tauto].
    destruct (_ || _); simpl; [|tauto].
    intros ->. unfold budget; simpl. lia. }
  destruct outcome as [error|error|first|res data]; simpl.
  - tauto.
  - apply retry.
  - destruct (onTimeout_cases c first) as [[Hlt ->] | [_ ->]]; simpl; [|tauto].
    intros [-> | ->]; unfold budget; simpl; lia.
  - pose proof (onEnd_never_retries c res (fold_left onData data [])) as Hno.
    destruct (snd (onEnd c res (fold_left onData data []))) as [r|e|c0|c0|c1 c2 f]
      eqn:HN; simpl; try tauto.
    intros ->. apply onEnd_redirect in HN.
    destruct HN as (_ & _ & _ & Hlt & u & _ & ->).
    unfold budget; simpl.
    destruct (redirectOptions303_limits (options c)) as [HR HD].
    destruct (statusIs res 303); simpl; rewrite ?HR, ?HD; lia.
Qed.

Lemma attempt_budget (net : Network) (st st' : State) (c c' : Call)
  (events : list Event) (next : Next) :
  attempt net st c = (st', events, next) ->
  awaits next c' -> (budget c' < budget c)%nat.
Proof.
  destruct (URL_new (url c) None) as [u|e] eqn:HU.
  - rewrite (attempt_dispatched net st c u HU).
    intros [= _ _ <-]. apply handle_budget.
  - rewrite (attempt_invalid_url net st c e HU). intros [= _ _ <-] [].
Qed.

(** Fuel beyond the budget changes nothing. *)
Lemma makeRequestFuel_enough (net : Network) (fuel : nat) :
  forall (st : State) (c : Call),
    (budget c < fuel)%nat ->
    makeRequestFuel fuel net st c = makeRequest net st c.
Proof.
  induction fuel as [fuel IH] using lt_wf_ind. intros st c Hfuel.
  unfold makeRequest. destruct fuel as [|fuel]; [lia|].
  cbn [makeRequestFuel].
  destruct (attempt net st c) as [[st' events] next] eqn:HA.
  assert (step : forall s c', awaits next c' ->
                   makeRequestFuel fuel net s c'
                   = makeRequestFuel (budget c) net s c').
  { intros s c' Hc'.
    assert (budget c' < budget c)%nat by (eapply attempt_budget; eauto).
    rewrite (IH fuel) by lia.
    destruct (Nat.eq_dec (budget c) fuel) as [->|Hne];
      [now rewrite (IH fuel) by lia|].
    now rewrite (IH (budget c)) by lia. }
  destruct next as [r|e|c'|c'|c1 c2 first]; try reflexivity.
  - now rewrite step by reflexivity.
  - now rewrite step by reflexivity.
  - rewrite step by (now left). unfold race.
    destruct (makeRequestFuel (budget c) net st' c1) as [[[st1 ev1] r1]|];
      [|reflexivity].
    now rewrite step by (now right).
Qed.

(** [makeRequest] as the source reads: one activation, then whatever the
    awaited activations yield. *)
Lemma makeRequest_unfold (net : Network) (st : State) (c : Call) :
  makeRequest net st c =
  let '(st', events, next) := attempt net st c in
  match next with
  | Resolve r => Some (st', events, Fulfilled r)
  | Reject e => Some (st', events, RejectedWith e)
  | Retry c' => after events (makeRequest net st' c')
  | Redirect c' => after events (makeRequest net st' c')
  | RetryBoth former latter first =>
      after events
        (race first (makeRequest net st' former)
           (fun st1 => makeRequest net st1 latter))
  end.
Proof.
  unfold makeRequest at 1. cbn [makeRequestFuel].
  destruct (attempt net st c) as [[st' events] next] eqn:HA.
  assert (step : forall s c', awaits next c' ->
                   makeRequestFuel (budget c) net s c' = makeRequest net s c').
  { intros s c' Hc'. apply makeRequestFuel_enough.
    eapply attempt_budget; eauto. }
  destruct next as [r|e|c'|c'|c1 c2 first]; try reflexivity.
  - now rewrite step by reflexivity.
  - now rewrite step by reflexivity.
  - rewrite step by (now left). unfold race.
    destruct (makeRequest net st' c1) as [[[st1 ev1] r1]|]; [|reflexivity].
    now rewrite step by (now right).
Qed.

(** Every call settles. *)
Lemma makeRequest_settles (net : Network) (c : Call) :
  forall st : State, exists run : Run, makeRequest net st c = Some run.
Proof.
  remember (budget c) as n eqn:Hn. revert c Hn.
  induction n as [n IH] using lt_wf_ind. intros c -> st.
  rewrite makeRequest_unfold.
  destruct (attempt net st c) as [[st' events] next] eqn:HA.
  assert (step : forall s c', awaits next c' ->
                   exists run, makeRequest net s c' = Some run).
  { intros s c' Hc'. eapply (IH (budget c')); [|reflexivity].
    eapply attempt_budget; eauto. }
  destruct next as [r|e|c'|c'|c1 c2 first]; try (eexists; reflexivity).
  - destruct (step st' c' eq_refl) as [[[s2 ev2] r2] ->]. eexists; reflexivity.
  - destruct (step st' c' eq_refl) as [[[s2 ev2] r2] ->]. eexists; reflexivity.
  - destruct (step st' c1 (or_introl eq_refl)) as [[[s1 ev1] r1] ->].
    cbn [race].
    destruct (step s1 c2 (or_intror eq_refl)) as [[[s2 ev2] r2] ->].
    eexists; reflexivity.
Qed.

(** What the handlers can settle with. *)
Lemma handle_resolve (c : Call) (outcome : Outcome) (r : CustomResponse) :
  snd (handle c outcome) = Resolve r ->
  exists res data,
    outcome = Responded res data
    /\ r = buildResponse res (fold_left onData data []).
Proof.
  destruct outcome as [error|error|first|res data]; simpl.
  - discriminate.
  - rewrite onError_next. destruct (shouldRetry c error); discriminate.
  - destruct (onTimeout_cases c first) as [[_ ->] | [_ ->]]; discriminate.
  - intros H. exists res, data. split; [reflexivity|].
    unfold onEnd in H.
    destruct (followRedirectsOf (options c) && _); [|now inversion H].
    destruct (truthyHeader _ && _); [|now inversion H].
    simpl in H. destruct (URL_new _ _); discriminate.
Qed.


Lemma after_some (events : list Event) (r : option Run) (st : State)
  (trace : list Event) (result : Settled CustomResponse) :
  after events r = Some (st, trace, result) ->
  exists rest, r = Some (st, rest, result) /\ trace = events ++ rest.
Proof.
  destruct r as [[[s ev] res]|]; simpl; [|discriminate].
  intros [= -> <- ->]. now exists ev.
Qed.

Lemma race_some (first : Racer) (former : option Run)
  (latter : State -> option Run) (st : State) (trace : list Event)
  (result : Settled CustomResponse) :
  race first former latter = Some (st, trace, result) ->
  exists st1 trace1 result1 trace2 result2,
    former = Some (st1, trace1, result1)
    /\ latter st1 = Some (st, trace2, result2)
    /\ trace = trace1 ++ trace2
    /\ result = match first with Former => result1 | Latter => result2 end.
Proof.
  unfold race. destruct former as [[[st1 ev1] r1]|]; [|discriminate].
  destruct (latter st1) as [[[st2 ev2] r2]|] eqn:HL; [|discriminate].
  intros [= <- <- <-]. exists st1, ev1, r1, ev2, r2. auto.
Qed.

(** Induction along a run: an activation that settles the promise itself,
    one that awaits another, and one that awaits the first of two. *)
Lemma run_ind (net : Network) (P : State -> Call -> Run -> Prop) :
  (forall st c st' events r,
      attempt net st c = (st', events, Resolve r) ->
      P st c (st', events, Fulfilled r)) ->
  (forall st c st' events e,
      attempt net st c = (st', events, Reject e) ->
      P st c (st', events, RejectedWith e)) ->
  (forall st c st0 events c' st' trace result,
      attempt net st c = (st0, events, Retry c')
      \/ attempt net st c = (st0, events, Redirect c') ->
      makeRequest net st0 c' = Some (st', trace, result) ->
      P st0 c' (st', trace, result) ->
      P st c (st', events ++ trace, result)) ->
  (forall st c st0 events former latter first st1 trace1 result1
          st2 trace2 result2,
      attempt net st c = (st0, events, RetryBoth former latter first) ->
      makeRequest net st0 former = Some (st1, trace1, result1) ->
      P st0 former (st1, trace1, result1) ->
      makeRequest net st1 latter = Some (st2, trace2, result2) ->
      P st1 latter (st2, trace2, result2) ->
      P st c (st2, events ++ trace1 ++ trace2,
              match first with Former => result1 | Latter => result2 end)) ->
  forall st c run, makeRequest net st c = Some run -> P st c run.
Proof.
  intros Hresolve Hreject Hstep Hboth st c.
  remember (budget c) as n eqn:Hn. revert st c Hn.
  induction n as [n IH] using lt_wf_ind. intros st c -> run.
  rewrite makeRequest_unfold.
  destruct (attempt net st c) as [[st0 events] next] eqn:HA.
  assert (sub : forall s c' run', awaits next c' ->
                  makeRequest net s c' = Some run' -> P s c' run').
  { intros s c' run' Hc'. eapply (IH (budget c')); [|reflexivity].
    eapply attempt_budget; eauto. }
  destruct next as [r|e|c'|c'|c1 c2 first].
  - intros [= <-]. now apply Hresolve.
  - intros [= <-]. now apply Hreject.
  - destruct run as [[st' trace] result]. intros H.
    apply after_some in H. destruct H as (rest & H & ->).
    apply Hstep with (st0 := st0) (c' := c'); auto. now apply sub.
  - destruct run as [[st' trace] result]. intros H.
    apply after_some in H. destruct H as (rest & H & ->).
    apply Hstep with (st0 := st0) (c' := c'); auto. now apply sub.
  - destruct run as [[st' trace] result]. intros H.
    apply after_some in H. destruct H as (rest & H & ->).
    apply race_some in H.
    destruct H as (st1 & trace1 & result1 & trace2 & result2
                   & H1 & H2 & -> & ->).
    eapply Hboth; eauto.
    + apply sub; [now left | exact H1].
    + apply sub; [now right | exact H2].
Qed.

(** An activation seen from its result: the URL did not parse, or
    [protocol.request] was called and answered. *)
Lemma attempt_inv (net : Network) (st st' : State) (c : Call)
  (events : list Event) (next : Next) :
  attempt net st c = (st', events, next) ->
  (exists e,
     URL_new (url c) None = inr e
     /\ st' = st /\ events = [] /\ next = Reject e)
  \/ exists u,
       URL_new (url c) None = inl u
       /\ st' = dispatched st u
       /\ events
          = (if warnsInsecureTls st u then [WarnInsecureTls] else [])
            ++ made (clientRequest c u) (net (attempts st) (clientRequest c u))
            ++ fst (handle c (net (attempts st) (clientRequest c u)))
       /\ next = snd (handle c (net (attempts st) (clientRequest c u))).
Proof.
  destruct (URL_new (url c) None) as [u|e] eqn:HU.
  - rewrite (attempt_dispatched net st c u HU). intros [= <- <- <-].
    right. exists u. auto.
  - rewrite (attempt_invalid_url net st c e HU). intros [= <- <- <-].
    left. exists e. auto.
Qed.

(** Where the response of a fulfilled call comes from: a request of the
    call, made while it ran, that the transport answered in full. *)
Lemma fulfilled_from_response (net : Network) :
  forall (st : State) (c : Call) (run : Run),
    makeRequest net st c = Some run ->
    (attempts st <= attempts (fst (fst run)))%nat
    /\ forall r,
         snd run = Fulfilled r ->
         exists n req res data,
           (attempts st <= n < attempts (fst (fst run)))%nat
           /\ In (Dispatch req) (snd (fst run))
           /\ net n req = Responded res data
           /\ r = buildResponse res (fold_left onData data []).
Proof.
  apply run_ind; cbn [fst snd].
  - intros st c st' events r HA.
    apply attempt_inv in HA.
    destruct HA as [(e & _ & _ & _ & [=]) | (u & HU & -> & -> & HN)].
    cbn [dispatched attempts]. split; [lia|].
    intros r' [= <-]. symmetry in HN. apply handle_resolve in HN.
    destruct HN as (res & data & HO & ->).
    exists (attempts st), (clientRequest c u), res, data.
    repeat split; try lia; [|exact HO].
    rewrite HO. cbn [made]. apply in_or_app. right. now left.
  - intros st c st' events e HA. split; [|discriminate].
    apply attempt_inv in HA.
    destruct HA as [(e' & _ & -> & _) | (u & _ & -> & _)];
      cbn [dispatched attempts]; lia.
  - intros st c st0 events c' st' trace result HA _ [Hle IH].
    assert (Hst : (attempts st <= attempts st0)%nat).
    { destruct HA as [HA|HA]; apply attempt_inv in HA;
        destruct HA as [(e' & _ & -> & _) | (u & _ & -> & _)];
        cbn [dispatched attempts]; lia. }
    split; [lia|]. intros r Hr.
    destruct (IH r Hr) as (n & req & res & data & Hn & Hin & HO & ->).
    exists n, req, res, data. repeat split; try lia; auto.
    apply in_or_app. now right.
  - intros st c st0 events former latter first st1 trace1 result1
           st2 trace2 result2 HA _ [Hle1 IH1] _ [Hle2 IH2].
    assert (Hst : (attempts st <= attempts st0)%nat).
    { apply attempt_inv in HA.
      destruct HA as [(e' & _ & -> & _) | (u & _ & -> & _)];
        cbn [dispatched attempts]; lia. }
    split; [lia|]. intros r Hr. destruct first.
    + destruct (IH1 r Hr) as (n & req & res & data & Hn & Hin & HO & ->).
      exists n, req, res, data. repeat split; try lia; auto.
      apply in_or_app. right. apply in_or_app. now left.
    + destruct (IH2 r Hr) as (n & req & res & data & Hn & Hin & HO & ->).
      exists n, req, res, data. repeat split; try lia; auto.
      apply in_or_app. right. apply in_or_app. now right.
Qed.

(** ** Retry *)


(** ** The response object *)

(** C6.  The response a call is fulfilled with is built from the answer
    the transport gave to one of the call's requests: its [status] is the
    status code of that answer, 0 when it has none, and its [ok] is true
    exactly when that status lies in [200, 300), so it is false for every
    other status. *)
Theorem ok_iff_status_2xx :
  forall (net : Network) (st st' : State) (c : Call) (trace : list Event)
         (r : CustomResponse),
    makeRequest net st c = Some (st', trace, Fulfilled r) ->
    exists n req res data,
      In (Dispatch req) trace
      /\ net n req = Responded res data
      /\ status r = orDefault (statusCode res) 0%Z
      /\ (ok r = true <-> (200 <= status r < 300)%Z)
      /\ (ok r = true <->
          exists code, statusCode res = Some code /\ (200 <= code < 300)%Z)
      /\ (ok r = false <-> (status r < 200 \/ 300 <= status r)%Z).
Proof.
  intros net st st' c trace r H.
  destruct (fulfilled_from_response net st c _ H) as [_ Hfrom].
  destruct (Hfrom r eq_refl) as (n & req & res & data & _ & Hin & HO & ->).
  cbn [fst snd] in Hin.
  exists n, req, res, data.
  pose proof (buildResponse_ok res (fold_left onData data [])) as Hok.
  rewrite buildResponse_status in *.
  split; [exact Hin|]. split; [exact HO|]. split; [reflexivity|].
  split; [exact Hok|]. split; split.
  - intros E. apply Hok in E.
    destruct (statusCode res) as [code|]; cbn [orDefault] in E; [eauto | lia].
  - intros (code & E & Hcode). apply Hok. now rewrite E.
  - intros E.
    destruct (Z_lt_ge_dec (orDefault (statusCode res) 0%Z) 200); [now left|].
    destruct (Z_lt_ge_dec (orDefault (statusCode res) 0%Z) 300); [|right; lia].
    assert (ok (buildResponse res (fold_left onData data [])) = true)
      by (apply Hok; lia).
    congruence.
  - intros Hout. apply not_true_is_false. intros E. apply Hok in E. lia.
Qed.

(** C10.  An attempt answered by a response that carries no status code
    resolves the call with a response whose [status] is 0, whose
    [statusText] is empty and whose [ok] is false. *)
Theorem absent_status_code :
  forall (net : Network) (st : State) (c : Call) (parsedUrl : URL)
         (res : IncomingMessage) (data : list Chunk),
    URL_new (url c) None = inl parsedUrl ->
    net (attempts st) (clientRequest c parsedUrl) = Responded res data ->
    statusCode res = None ->
    exists r,
      makeRequest net st c =
      Some (dispatched st parsedUrl,
            (if warnsInsecureTls st parsedUrl then [WarnInsecureTls] else [])
            ++ [Dispatch (clientRequest c parsedUrl)],
            Fulfilled r)
      /\ status r = 0%Z
      /\ statusText r = ""
      /\ ok r = false.
Proof.
  intros net st c parsedUrl res data HU HN Hnone.
  exists (buildResponse res (fold_left onData data [])).
  assert (Hline : statusLine res = None)
    by (unfold statusCode in Hnone; now destruct (statusLine res)).
  split.
  - rewrite makeRequest_unfold, (attempt_dispatched net st c parsedUrl HU), HN.
    cbn [handle made]. unfold onEnd. rewrite Hnone. cbn [orDefault].
    replace (isRedirectStatus 0) with false by reflexivity.
    rewrite andb_false_r. reflexivity.
  - unfold buildResponse, statusCode, statusMessage. cbn.
    rewrite Hline. cbn. auto.
Qed.

(** ** Redirects *)

(** C4.  A response with a redirect status and a Location header that arrives,
    with [followRedirects] on, when [redirectCount] has reached
    [maxRedirects] does not fail the call: the limit is logged and the call
    is fulfilled with that very response, whose [ok] is false and whose
    [status] is the redirect status. *)
Theorem redirect_limit_returns_response :
  forall (net : Network) (st : State) (c : Call) (parsedUrl : URL)
         (res : IncomingMessage) (data : list Chunk),
    URL_new (url c) None = inl parsedUrl ->
    net (attempts st) (clientRequest c parsedUrl) = Responded res data ->
    followRedirectsOf (options c) = true ->
    isRedirectStatus (orDefault (statusCode res) 0%Z) = true ->
    obj_get "location" (res_headers res) <> None ->
    (maxRedirectsOf (options c) <= Z.of_nat (redirectCount c))%Z ->
    let r := buildResponse res (fold_left onData data []) in
    makeRequest net st c =
    Some (dispatched st parsedUrl,
          (if warnsInsecureTls st parsedUrl then [WarnInsecureTls] else [])
          ++ [Dispatch (clientRequest c parsedUrl);
              WarnMaxRedirects (maxRedirectsOf (options c)) (url c)],
          Fulfilled r)
    /\ ok r = false
    /\ status r = orDefault (statusCode res) 0%Z.
Proof.
  intros net st c parsedUrl res data HU HN Hfollow Hstatus _ Hlimit r.
  split; [|split; [now apply redirect_status_not_ok | reflexivity]].
  rewrite makeRequest_unfold, (attempt_dispatched net st c parsedUrl HU), HN.
  cbn [handle made]. unfold onEnd. rewrite Hfollow, Hstatus. cbn [andb].
  assert ((Z.of_nat (redirectCount c) <? maxRedirectsOf (options c))%Z = false)
    as -> by now apply Z.ltb_ge.
  rewrite andb_false_r.
  assert ((maxRedirectsOf (options c) <=? Z.of_nat (redirectCount c))%Z = true)
    as -> by now apply Z.leb_le.
  reflexivity.
Qed.

(** C3 (as amended).  An attempt answered with a response is followed by a
    redirect exactly when the status is 301, 302, 303, 307 or 308,
    [followRedirects] is on, the Location header is present and not empty,
    [redirectCount < maxRedirects], and the Location resolves against the
    current URL; the request that follows goes to the resolved URL with
    [redirectCount + 1] and the same [retryCount]. *)
Theorem redirect_followed_iff :
  forall (net : Network) (st : State) (c : Call) (parsedUrl : URL)
         (res : IncomingMessage) (data : list Chunk) (c' : Call),
    URL_new (url c) None = inl parsedUrl ->
    net (attempts st) (clientRequest c parsedUrl) = Responded res data ->
    let location := obj_get "location" (res_headers res) in
    snd (attempt net st c) = Redirect c' <->
    isRedirectStatus (orDefault (statusCode res) 0%Z) = true
    /\ followRedirectsOf (options c) = true
    /\ truthyHeader location = true
    /\ (Z.of_nat (redirectCount c) < maxRedirectsOf (options c))%Z
    /\ exists redirectUrl,
         URL_new (headerText location) (Some (url c)) = inl redirectUrl
         /\ url c' = href redirectUrl
         /\ redirectCount c' = redirectCount c + 1
         /\ retryCount c' = retryCount c
         /\ options c' = (if statusIs res 303
                          then redirectOptions303 (options c)
                          else options c).
Proof.
  intros net st c parsedUrl res data c' HU HN location.
  rewrite (attempt_dispatched net st c parsedUrl HU), HN.
  cbn [handle snd]. rewrite onEnd_redirect. fold location. split.
  - intros (Hf & Hs & Ht & Hlt & u & Hu & ->). repeat split; try assumption.
    exists u. repeat split. exact Hu.
  - intros (Hs & Hf & Ht & Hlt & u & Hu & H1 & H2 & H3 & H4).
    repeat split; try assumption. exists u. split; [exact Hu|].
    destruct c'; simpl in *; subst; reflexivity.
Qed.

(** C7 (as amended).  Only a transport error or a timeout makes the client
    retry: one retry after an ["error"], two after a timeout.  An attempt
    answered with an HTTP response never sleeps and never retries: unless
    the response is a redirect to follow, the call is fulfilled with that
    response, whatever its status; a redirect to follow starts the next
    request with [retryCount] unchanged, or rejects the call when its
    Location does not resolve. *)
Theorem retry_only_on_transport_errors :
  forall (net : Network) (st : State) (c : Call) (parsedUrl : URL),
    URL_new (url c) None = inl parsedUrl ->
    let outcome := net (attempts st) (clientRequest c parsedUrl) in
    (forall c', snd (attempt net st c) = Retry c' ->
       exists error, outcome = NetworkError error)
    /\ (forall former latter first,
          snd (attempt net st c) = RetryBoth former latter first ->
          outcome = TimedOut first)
    /\ (forall res data,
          outcome = Responded res data ->
          let location := obj_get "location" (res_headers res) in
          let follows :=
            followRedirectsOf (options c)
            && isRedirectStatus (orDefault (statusCode res) 0%Z)
            && (truthyHeader location
                && (Z.of_nat (redirectCount c) <? maxRedirectsOf (options c))%Z)
          in
          (forall ms, ~ In (Sleep ms) (snd (fst (attempt net st c))))
          /\ (follows = false ->
              exists trace,
                makeRequest net st c =
                Some (dispatched st parsedUrl, trace,
                      Fulfilled (buildResponse res (fold_left onData data []))))
          /\ (follows = true ->
              (exists c', snd (attempt net st c) = Redirect c'
                          /\ retryCount c' = retryCount c)
              \/ (exists e, snd (attempt net st c) = Reject e
                            /\ URL_new (headerText location) (Some (url c))
                               = inr e))).
Proof.
  intros net st c parsedUrl HU outcome.
  rewrite makeRequest_unfold, (attempt_dispatched net st c parsedUrl HU).
  fold outcome. cbn [fst snd]. split; [|split].
  - intros c' H. destruct outcome as [error|error|first|res data]; eauto.
    + discriminate.
    + cbn [handle] in H.
      destruct (onTimeout_cases c first) as [[_ E] | [_ E]];
        rewrite E in H; discriminate.
    + pose proof (onEnd_never_retries c res (fold_left onData data [])) as Hno.
      cbn [handle] in H. rewrite H in Hno. destruct Hno.
  - intros former latter first H.
    destruct outcome as [error|error|first'|res data].
    + discriminate.
    + cbn [handle] in H. rewrite onError_next in H.
      destruct (shouldRetry c error); discriminate.
    + cbn [handle] in H.
      destruct (onTimeout_cases c first') as [[_ E] | [_ E]];
        rewrite E in H; [now inversion H | discriminate].
    + pose proof (onEnd_never_retries c res (fold_left onData data [])) as Hno.
      cbn [handle] in H. rewrite H in Hno. destruct Hno.
  - intros res data Hout. rewrite Hout. cbn [handle made]. unfold onEnd.
    set (location := obj_get "location" (res_headers res)).
    destruct (followRedirectsOf (options c)
              && isRedirectStatus (orDefault (statusCode res) 0%Z));
      destruct (truthyHeader location
                && (Z.of_nat (redirectCount c) <? maxRedirectsOf (options c))%Z);
      cbn [andb fst snd app].
    + split; [|split; [discriminate|intros _]].
      * intros ms Hin. apply in_app_or in Hin.
        destruct Hin as [Hin | [Hin | [Hin | [Hin | []]]]]; try discriminate.
        destruct (warnsInsecureTls st parsedUrl);
          [destruct Hin as [Hin | []]; discriminate | destruct Hin].
      * destruct (URL_new (headerText location) (Some (url c))) as [u|e].
        -- left. eexists. split; reflexivity.
        -- right. eexists. split; reflexivity.
    + split; [|split; [intros _; eexists; reflexivity | discriminate]].
      intros ms Hin. apply in_app_or in Hin.
      destruct Hin as [Hin | [Hin | Hin]]; try discriminate.
      * destruct (warnsInsecureTls st parsedUrl);
          [destruct Hin as [Hin | []]; discriminate | destruct Hin].
      * destruct (maxRedirectsOf (options c) <=? Z.of_nat (redirectCount c))%Z;
          [destruct Hin as [Hin | []]; discriminate | destruct Hin].
    + split; [|split; [intros _; eexists; reflexivity | discriminate]].
      intros ms Hin. apply in_app_or in Hin.
      destruct Hin as [Hin | [Hin | []]]; try discriminate.
      destruct (warnsInsecureTls st parsedUrl);
        [destruct Hin as [Hin | []]; discriminate | destruct Hin].
    + split; [|split; [intros _; eexists; reflexivity | discriminate]].
      intros ms Hin. apply in_app_or in Hin.
      destruct Hin as [Hin | [Hin | []]]; try discriminate.
      destruct (warnsInsecureTls st parsedUrl);
        [destruct Hin as [Hin | []]; discriminate | destruct Hin].
Qed.

(** ** What a followed redirect forwards *)

Lemma obj_set_fresh {A} (k : string) (v : A) (o : Obj A) :
  ~ In k (keys o) -> obj_set k v o = o ++ [(k, v)].
Proof.
  induction o as [|[k' v'] o IH]; simpl; intros Hfresh.
  - reflexivity.
  - destruct (String.eqb_spec k' k) as [->|_]; [tauto|].
    f_equal. apply IH. tauto.
Qed.

Lemma keys_filter303 (h acc : Obj string) (k : string) :
  In k (keys (fold_left
                (fun redirectHeaders entry =>
                   if keptOn303 entry
                   then obj_set (fst entry) (snd entry) redirectHeaders
                   else redirectHeaders) h acc)) <->
  In k (keys acc) \/ exists v, In (k, v) h /\ keptOn303 (k, v) = true.
Proof.
  revert acc. induction h as [|[key value] h IH]; intros acc.
  - simpl. split; [auto | intros [H | (? & [] & _)]; exact H].
  - cbn [fold_left]. rewrite IH. cbn [In fst snd].
    destruct (keptOn303 (key, value)) eqn:Hkeep.
    + rewrite keys_obj_set. split.
      * intros [[-> | H] | (v & Hin & Hk)]; eauto.
      * intros [H | (v & [[= <- <-] | Hin] & Hk)]; eauto.
    + split.
      * intros [H | (v & Hin & Hk)]; eauto.
      * intros [H | (v & [[= <- <-] | Hin] & Hk)]; eauto. congruence.
Qed.

(** An object has one property per name: the loop then copies the entries it
    keeps, in order. *)
Lemma fold_filter303 (h acc : Obj string) :
  NoDup (keys acc ++ keys h) ->
  fold_left
    (fun redirectHeaders entry =>
       if keptOn303 entry
       then obj_set (fst entry) (snd entry) redirectHeaders
       else redirectHeaders) h acc
  = acc ++ filter keptOn303 h.
Proof.
  revert acc. induction h as [|[key value] h IH]; intros acc Hnd.
  - simpl. now rewrite app_nil_r.
  - cbn [fold_left filter fst snd]. simpl keys in Hnd.
    assert (Hfresh : ~ In key (keys acc)).
    { intros Hin. apply NoDup_remove_2 in Hnd. apply Hnd.
      apply in_or_app. now left. }
    destruct (keptOn303 (key, value)).
    + rewrite obj_set_fresh by exact Hfresh. rewrite IH.
      * now rewrite <- app_assoc.
      * unfold keys. rewrite map_app. simpl. rewrite <- app_assoc. exact Hnd.
    + apply IH. now apply NoDup_remove_1 in Hnd.
Qed.

(** No name that survives the 303 filter is a body header, before or after
    normalisation. *)
Lemma forwarded303_names (o : Options) (k : string) :
  In k (keys (normalizeHeaders (Some (redirectHeaders303 o)))) ->
  toLowerCase k <> "content-type" /\ toLowerCase k <> "content-length".
Proof.
  unfold normalizeHeaders. rewrite keys_fold_normalizeEntry.
  intros [[] | (key & value & Hin & ->)].
  assert (Hkey : In key (keys (redirectHeaders303 o)))
    by (apply in_map_iff; exists (key, value); auto).
  unfold redirectHeaders303 in Hkey.
  destruct (headers o) as [| |h]; try destruct Hkey.
  apply keys_filter303 in Hkey. destruct Hkey as [[] | (v & _ & Hkeep)].
  unfold keptOn303 in Hkeep. cbn [fst] in Hkeep.
  apply andb_true_iff in Hkeep. destruct Hkeep as [Htype Hlength].
  apply negb_true_iff, String.eqb_neq in Htype, Hlength.
  destruct (isCfAccess key); rewrite ?toLowerCase_idempotent; auto.
Qed.

(** C2.  After a followed 303 the request that goes out is a GET without a
    body and without any header named content-type or content-length in any
    letter case, the caller's other headers being forwarded as they were;
    after a followed 301, 302, 307 or 308 the options are the caller's own,
    so method, body and headers of the request are those of the original. *)
Theorem redirect_forwarding :
  forall (c : Call) (res : IncomingMessage) (chunks : list Buffer) (c' : Call),
    snd (onEnd c res chunks) = Redirect c' ->
    (statusIs res 303 = true ->
     (forall u',
        req_method (clientRequest c' u') = "GET"
        /\ req_body (clientRequest c' u') = None
        /\ forall k,
             In k (keys (req_headers (clientRequest c' u'))) ->
             toLowerCase k <> "content-type"
             /\ toLowerCase k <> "content-length")
     /\ (forall h,
           headers (options c) = Present h ->
           NoDup (keys h) ->
           headers (options c') = Present (filter keptOn303 h)))
    /\ (statusIs res 301 = true \/ statusIs res 302 = true
        \/ statusIs res 307 = true \/ statusIs res 308 = true ->
        options c' = options c
        /\ forall u u',
             req_method (clientRequest c' u') = req_method (clientRequest c u)
             /\ req_body (clientRequest c' u') = req_body (clientRequest c u)
             /\ req_headers (clientRequest c' u')
                = req_headers (clientRequest c u)).
Proof.
  intros c res chunks c' H. apply onEnd_redirect in H.
  destruct H as (_ & _ & _ & _ & u0 & _ & ->). split.
  - intros ->. cbn [options]. split.
    + intros u'. split; [reflexivity | split; [reflexivity|]].
      intros k Hk. now apply forwarded303_names in Hk.
    + intros h Hh Hnd. cbn [headers redirectOptions303].
      unfold redirectHeaders303. rewrite Hh.
      now rewrite fold_filter303.
  - intros Hs.
    assert (statusIs res 303 = false) as ->.
    { unfold statusIs in *. destruct (statusCode res) as [n|]; [|reflexivity].
      rewrite !Z.eqb_eq in Hs. apply Z.eqb_neq. lia. }
    cbn [options]. split; [reflexivity|]. intros u u'. repeat split.
Qed.

(** ** Header names *)








(** ** The body and its accessors *)

Lemma fold_onData (data : list Chunk) (chunks : list Buffer) :
  fold_left onData data chunks = chunks ++ map received data.
Proof.
  revert chunks. induction data as [|chunk data IH]; intros chunks; simpl.
  - now rewrite app_nil_r.
  - rewrite IH. unfold onData. now rewrite <- app_assoc.
Qed.

(** [makeRequest] never calls [JSON.parse]. *)
Lemma makeRequestFuel_withJSON (V : Type) (parse : string -> V + Thrown)
  (net : Network) (fuel : nat) :
  forall (st : State) (c : Call),
    @makeRequestFuel (withJSON host V parse) fuel net st c
    = makeRequestFuel fuel net st c.
Proof.
  induction fuel as [|fuel IH]; intros st c; [reflexivity|].
  cbn [makeRequestFuel].
  change (@attempt (withJSON host V parse) net st c) with (attempt net st c).
  destruct (attempt net st c) as [[st' events] next].
  destruct next as [r|e|c'|c'|former latter first]; try reflexivity;
    try now rewrite IH.
  all: unfold race; rewrite IH;
    destruct (makeRequestFuel fuel net st' former) as [[[st1 ev1] r1]|];
    [now rewrite IH | reflexivity].
Qed.

(** C8.  A response that ends the call fulfils it whether or not its body is
    JSON, and with any [JSON.parse] whatever: parsing happens only in the
    [json] accessor, which yields the parsed value when the body is valid
    and otherwise is rejected with an [Error] that has no transport code and
    whose message starts with [Failed to parse JSON: ]. *)
Theorem json_failure_only_on_access :
  forall (net : Network) (st : State) (c : Call) (parsedUrl : URL)
         (res : IncomingMessage) (data : list Chunk),
    URL_new (url c) None = inl parsedUrl ->
    net (attempts st) (clientRequest c parsedUrl) = Responded res data ->
    let r := buildResponse res (fold_left onData data []) in
    snd (attempt net st c) = Resolve r ->
    (exists trace,
       makeRequest net st c
       = Some (dispatched st parsedUrl, trace, Fulfilled r)
       /\ forall V (parse : string -> V + Thrown),
            @makeRequest (withJSON host V parse) net st c
            = Some (dispatched st parsedUrl, trace, Fulfilled r))
    /\ match JSON_parse (Buffer_toString_utf8 (responseBody r)) with
       | inl value => json r = Fulfilled value
       | inr thrown =>
           exists detail,
             json r
             = RejectedWith
                 (mkError "Error" ("Failed to parse JSON: " ++ detail) None)
       end.
Proof.
  intros net st c parsedUrl res data HU HN r Hterm. split.
  - assert (Hrun : exists trace,
               makeRequest net st c
               = Some (dispatched st parsedUrl, trace, Fulfilled r)).
    { rewrite makeRequest_unfold.
      rewrite (attempt_dispatched net st c parsedUrl HU) in *.
      cbn [snd] in Hterm. rewrite Hterm. eexists. reflexivity. }
    destruct Hrun as (trace & Hrun). exists trace. split; [exact Hrun|].
    intros V parse. unfold makeRequest.
    change (@budget (withJSON host V parse) c) with (budget c).
    rewrite makeRequestFuel_withJSON. exact Hrun.
  - unfold json.
    destruct (JSON_parse (Buffer_toString_utf8 (responseBody r)))
      as [value|thrown]; [reflexivity|].
    eexists. reflexivity.
Qed.

(** *** The response object in memory *)

Lemma reading_own_body (r : CustomResponse) :
  reading r (responseBody r) = r.
Proof. now destruct r. Qed.

Lemma length_overwrite (m : Memory) (address i : nat) (x : Byte.byte) :
  length (overwrite m address i x) = length m.
Proof.
  revert address. induction m as [|bytes m IH]; intros [|a]; simpl; auto.
Qed.

(** Writing to one array buffer leaves every other one as it was. *)
Lemma overwrite_elsewhere (m : Memory) (address i : nat) (x : Byte.byte)
  (other : nat) :
  other <> address ->
  arrayBufferAt (overwrite m address i x) other = arrayBufferAt m other.
Proof.
  unfold arrayBufferAt. revert address other.
  induction m as [|bytes m IH]; intros [|a] [|o] Hne; simpl; auto;
    try congruence.
Qed.

Lemma use_untouched (r : CustomResponse) (m : Memory) (body : BufferView)
  (s : Session) (u : Use) :
  (view_buffer body < length m)%nat ->
  viewed m body = responseBody r ->
  untouched m body s ->
  fst (use r body s u) = firstAnswer r u
  /\ untouched m body (snd (use r body s u)).
Proof.
  intros Hbody Hview (Hlen & Hhanded & Hsame).
  assert (Hnow : viewed (memory s) body = responseBody r)
    by (unfold viewed; now rewrite Hsame).
  destruct u as [[| |]|k i x]; cbn [use firstAnswer answer].
  - rewrite Hnow, reading_own_body. repeat split; auto.
  - rewrite Hnow, reading_own_body. repeat split; auto.
  - cbn [ArrayBuffer_slice fst snd memory handed]. split.
    + unfold arrayBufferAt at 1. rewrite nth_middle.
      replace (byteOffset body + byteLength body - byteOffset body)%nat
        with (byteLength body) by lia.
      fold (viewed (memory s) body). now rewrite Hnow.
    + unfold untouched. cbn [memory handed].
      split; [rewrite length_app; simpl; lia|]. split.
      * intros address Hin. apply in_app_or in Hin.
        destruct Hin as [Hin | [<- | []]]; auto.
      * unfold arrayBufferAt in *. rewrite app_nth1 by lia. exact Hsame.
  - split; [reflexivity|]. cbn [snd].
    destruct (nth_error (handed s) k) as [address|] eqn:Hk;
      [|repeat split; auto].
    apply nth_error_In in Hk. apply Hhanded in Hk.
    unfold untouched. cbn [memory handed].
    split; [now rewrite length_overwrite|].
    split; [exact Hhanded|].
    rewrite overwrite_elsewhere by lia. exact Hsame.
Qed.

Lemma useAll_untouched (r : CustomResponse) (m : Memory) (body : BufferView)
  (uses : list Use) :
  (view_buffer body < length m)%nat ->
  viewed m body = responseBody r ->
  forall s,
    untouched m body s ->
    fst (useAll r body s uses) = map (firstAnswer r) uses
    /\ untouched m body (snd (useAll r body s uses)).
Proof.
  intros Hbody Hview.
  induction uses as [|u uses IH]; intros s Hs; [now split|].
  cbn [useAll map].
  destruct (use_untouched r m body s u Hbody Hview Hs) as [Ha Hs'].
  destruct (use r body s u) as [a s'] eqn:Hu. cbn [fst snd] in *.
  destruct (IH s' Hs') as [Has Hs''].
  destruct (useAll r body s' uses) as [answers s''] eqn:Hall.
  cbn [fst snd] in *. split; [now rewrite Ha, Has | exact Hs''].
Qed.

(** C9.  The body of the response a call is fulfilled with is the
    concatenation of the chunks the transport delivered for one of the
    call's requests, each taken once and in order, a string chunk encoded.
    Using the response object in any way (calling its accessors in any order
    and any number of times, writing to the array buffers that
    [arrayBuffer] hands over) answers every call as a first call would be
    answered and leaves the body as it was.  A body delivered, in whatever
    chunks, as the bytes of [{"a":1}] has that very string as its text and
    its parse as its JSON value. *)
Theorem body_accessors_repeatable :
  forall (net : Network) (st st' : State) (c : Call) (trace : list Event)
         (r : CustomResponse),
    makeRequest net st c = Some (st', trace, Fulfilled r) ->
    exists n req res data,
      In (Dispatch req) trace
      /\ net n req = Responded res data
      /\ responseBody r
         = concat (map (fun chunk =>
                          match chunk with
                          | BufferChunk b => b
                          | StringChunk s => Buffer_from_utf8 s
                          end) data)
      /\ (forall (m : Memory) (body : BufferView) (uses : list Use),
            (view_buffer body < length m)%nat ->
            viewed m body = responseBody r ->
            fst (useAll r body (mkSession m []) uses)
            = map (firstAnswer r) uses
            /\ viewed (memory (snd (useAll r body (mkSession m []) uses))) body
               = responseBody r)
      /\ (forall (chunks : list Buffer) (value : JSONValue),
            data = map BufferChunk chunks ->
            concat chunks = Buffer_from_utf8 doc_a1 ->
            Buffer_toString_utf8 (Buffer_from_utf8 doc_a1) = doc_a1 ->
            JSON_parse doc_a1 = inl value ->
            text r = Fulfilled doc_a1 /\ json r = Fulfilled value).
Proof.
  intros net st st' c trace r H.
  destruct (fulfilled_from_response net st c _ H) as [_ Hfrom].
  destruct (Hfrom r eq_refl) as (n & req & res & data & _ & Hin & HO & ->).
  cbn [fst snd] in Hin.
  exists n, req, res, data.
  assert (Hbytes :
            responseBody (buildResponse res (fold_left onData data []))
            = concat (map (fun chunk =>
                             match chunk with
                             | BufferChunk b => b
                             | StringChunk s => Buffer_from_utf8 s
                             end) data)).
  { cbn [responseBody buildResponse]. rewrite fold_onData. cbn [app].
    reflexivity. }
  split; [exact Hin|]. split; [exact HO|]. split; [exact Hbytes|]. split.
  - intros m body uses Hbody Hview.
    destruct (useAll_untouched _ m body uses Hbody Hview (mkSession m []))
      as [Hanswers (_ & _ & Hsame)].
    + repeat split; [cbn; lia | intros address []].
    + split; [exact Hanswers|]. unfold viewed in *. now rewrite Hsame.
  - intros chunks value Hdata Hconcat Hround Hparse.
    unfold text, json. rewrite Hbytes, Hdata, map_map. cbn beta iota.
    rewrite map_id, Hconcat, Hround, Hparse. auto.
Qed.

End Properties.

(** * Further properties of [makeRequest] *)

Section Runs.
Context {host : Host}.

Lemma count_app (p : Event -> bool) (xs ys : list Event) :
  count p (xs ++ ys) = (count p xs + count p ys)%nat.
Proof. unfold count. now rewrite filter_app, length_app. Qed.

Lemma count_filter_nil (p : Event -> bool) (events : list Event) :
  filter p events = [] -> count p events = 0%nat.
Proof. unfold count. now intros ->. Qed.

(** What the handlers leave in the trace and in the next activation. *)
Lemma handle_shape (c : Call) (outcome : Outcome) :
  let events := fst (handle c outcome) in
  let retried :=
    mkCall (url c) (options c) (S (retryCount c)) (redirectCount c) in
  let pause :=
    Sleep (retryDelayOf (options c) * (Z.of_nat (retryCount c) + 1)) in
  count isTlsWarning events = 0%nat
  /\ count isDispatch events = 0%nat
  /\ match snd (handle c outcome) with
     | Retry c' =>
         filter isSleep events = [pause]
         /\ count isFollow events = 0%nat
         /\ count isLimitWarning events = 0%nat
         /\ c' = retried
         /\ (Z.of_nat (retryCount c) < maxRetriesOf (options c))%Z
         /\ exists error, outcome = NetworkError error
     | RetryBoth former latter first =>
         filter isSleep events = [pause; pause]
         /\ count isFollow events = 0%nat
         /\ count isLimitWarning events = 0%nat
         /\ former = retried
         /\ latter = retried
         /\ (Z.of_nat (retryCount c) < maxRetriesOf (options c))%Z
         /\ outcome = TimedOut first
     | Redirect c' =>
         filter isSleep events = []
         /\ count isFollow events = 1%nat
         /\ count isLimitWarning events = 0%nat
         /\ retryCount c' = retryCount c
         /\ redirectCount c' = S (redirectCount c)
         /\ maxRetriesOf (options c') = maxRetriesOf (options c)
         /\ maxRedirectsOf (options c') = maxRedirectsOf (options c)
         /\ retryDelayOf (options c') = retryDelayOf (options c)
         /\ followRedirectsOf (options c) = true
         /\ (Z.of_nat (redirectCount c) < maxRedirectsOf (options c))%Z
     | Reject _ =>
         filter isSleep events = []
         /\ count isLimitWarning events = 0%nat
         /\ (count isFollow events = 0%nat
             \/ count isFollow events = 1%nat
                /\ followRedirectsOf (options c) = true
                /\ (Z.of_nat (redirectCount c) < maxRedirectsOf (options c))%Z)
     | Resolve _ =>
         filter isSleep events = []
         /\ count isFollow events = 0%nat
         /\ (count isLimitWarning events = 0%nat
             \/ followRedirectsOf (options c) = true)
     end.
Proof.
  cbv zeta.
  destruct outcome as [error|error|first|res data]; cbn [handle].
  - cbn. auto 10.
  - unfold onError, shouldRetry.
    destruct (Z.ltb_spec (Z.of_nat (retryCount c)) (maxRetriesOf (options c)));
      cbn [andb]; [destruct (_ || _)|]; cbn; rewrite ?Nat.add_1_r;
      eauto 12.
  - destruct (onTimeout_cases c first) as [[Hlt ->] | [_ ->]]; cbn;
      rewrite ?Nat.add_1_r; auto 12.
  - unfold onEnd.
    destruct (followRedirectsOf (options c)) eqn:Hf; cbn [andb];
      [|cbn; auto 10].
    destruct (isRedirectStatus _); cbn [andb]; [|cbn; auto 10].
    destruct (truthyHeader _); cbn [andb].
    + destruct (Z.ltb_spec (Z.of_nat (redirectCount c))
                  (maxRedirectsOf (options c))).
      * cbn [fst snd]. destruct (URL_new _ _) as [u|e].
        -- cbn. rewrite Nat.add_1_r.
           destruct (statusIs res 303); cbn; auto 12.
        -- cbn. auto 10.
      * cbn [fst snd].
        destruct (maxRedirectsOf (options c) <=? Z.of_nat (redirectCount c))%Z;
          cbn; auto 10.
    + cbn [fst snd].
      destruct (maxRedirectsOf (options c) <=? Z.of_nat (redirectCount c))%Z;
        cbn; auto 10.
Qed.

(** The same for a whole activation, with the state before and after. *)
Lemma attempt_shape (net : Network) (st st' : State) (c : Call)
  (events : list Event) (next : Next) :
  attempt net st c = (st', events, next) ->
  let retried :=
    mkCall (url c) (options c) (S (retryCount c)) (redirectCount c) in
  let pause :=
    Sleep (retryDelayOf (options c) * (Z.of_nat (retryCount c) + 1)) in
  (attempts st <= attempts st' <= S (attempts st))%nat
  /\ (attempts st + count isDispatch events <= attempts st')%nat
  /\ count isTlsWarning events
     = (if negb (hasShownInsecureTlsWarning st)
           && hasShownInsecureTlsWarning st' then 1 else 0)%nat
  /\ (hasShownInsecureTlsWarning st = true ->
      hasShownInsecureTlsWarning st' = true)
  /\ (allowInsecureTls = false ->
      hasShownInsecureTlsWarning st' = hasShownInsecureTlsWarning st)
  /\ match next with
     | Retry c' =>
         filter isSleep events = [pause]
         /\ count isFollow events = 0%nat
         /\ count isLimitWarning events = 0%nat
         /\ c' = retried
         /\ (Z.of_nat (retryCount c) < maxRetriesOf (options c))%Z
     | RetryBoth former latter first =>
         filter isSleep events = [pause; pause]
         /\ count isFollow events = 0%nat
         /\ count isLimitWarning events = 0%nat
         /\ former = retried
         /\ latter = retried
         /\ (Z.of_nat (retryCount c) < maxRetriesOf (options c))%Z
         /\ exists req, net (attempts st) req = TimedOut first
     | Redirect c' =>
         filter isSleep events = []
         /\ count isFollow events = 1%nat
         /\ count isLimitWarning events = 0%nat
         /\ retryCount c' = retryCount c
         /\ redirectCount c' = S (redirectCount c)
         /\ maxRetriesOf (options c') = maxRetriesOf (options c)
         /\ maxRedirectsOf (options c') = maxRedirectsOf (options c)
         /\ retryDelayOf (options c') = retryDelayOf (options c)
         /\ followRedirectsOf (options c) = true
         /\ (Z.of_nat (redirectCount c) < maxRedirectsOf (options c))%Z
     | Reject _ =>
         filter isSleep events = []
         /\ count isLimitWarning events = 0%nat
         /\ (count isFollow events = 0%nat
             \/ count isFollow events = 1%nat
                /\ followRedirectsOf (options c) = true
                /\ (Z.of_nat (redirectCount c) < maxRedirectsOf (options c))%Z)
     | Resolve _ =>
         filter isSleep events = []
         /\ count isFollow events = 0%nat
         /\ (count isLimitWarning events = 0%nat
             \/ followRedirectsOf (options c) = true)
     end.
Proof.
  intros HA. cbv zeta. apply attempt_inv in HA.
  destruct HA as [(e & _ & -> & -> & ->) | (u & _ & -> & -> & ->)].
  { cbn. destruct (hasShownInsecureTlsWarning st); repeat split; auto; lia. }
  set (outcome := net (attempts st) (clientRequest c u)).
  set (warning := if warnsInsecureTls st u then [WarnInsecureTls] else []).
  destruct (handle_shape c outcome) as (Hw & Hd & Hnext). cbv zeta in Hnext.
  assert (Hwarning : forall p, p WarnInsecureTls = false ->
                               filter p warning = []).
  { intros p Hp. subst warning.
    destruct (warnsInsecureTls st u); cbn; now rewrite ?Hp. }
  assert (Hmade : forall p, (forall r, p (Dispatch r) = false) ->
                            filter p (made (clientRequest c u) outcome) = []).
  { intros p Hp. destruct outcome; cbn; now rewrite ?Hp. }
  assert (Hfilter : forall p,
             p WarnInsecureTls = false ->
             (forall r, p (Dispatch r) = false) ->
             filter p (warning ++ made (clientRequest c u) outcome
                       ++ fst (handle c outcome))
             = filter p (fst (handle c outcome))).
  { intros p H1 H2. now rewrite !filter_app, Hwarning, Hmade. }
  assert (Hcount : forall p,
             p WarnInsecureTls = false ->
             (forall r, p (Dispatch r) = false) ->
             count p (warning ++ made (clientRequest c u) outcome
                      ++ fst (handle c outcome))
             = count p (fst (handle c outcome))).
  { intros p H1 H2. unfold count. now rewrite Hfilter. }
  rewrite (Hfilter isSleep), (Hcount isFollow), (Hcount isLimitWarning)
    by reflexivity.
  cbn [dispatched attempts hasShownInsecureTlsWarning].
  split; [lia|]. split; [|split; [|split; [|split]]].
  - rewrite !count_app, Hd.
    assert (count isDispatch warning = 0%nat) as ->
      by (apply count_filter_nil, Hwarning; reflexivity).
    assert (count isDispatch (made (clientRequest c u) outcome) <= 1)%nat
      by (destruct outcome; cbn; lia).
    lia.
  - rewrite !count_app, Hw.
    assert (count isTlsWarning (made (clientRequest c u) outcome) = 0%nat) as ->
      by (apply count_filter_nil, Hmade; reflexivity).
    subst warning. unfold warnsInsecureTls.
    destruct (String.eqb (protocol u) "https:"), allowInsecureTls,
      (hasShownInsecureTlsWarning st); reflexivity.
  - now intros ->.
  - intros Hoff. unfold warnsInsecureTls. rewrite Hoff, andb_false_r. cbn.
    apply orb_false_r.
  - destruct (snd (handle c outcome)) as [r|e|c'|c'|former latter first];
      try exact Hnext.
    + intuition.
    + destruct Hnext as (H1 & H2 & H3 & H4 & H5 & H6 & H7).
      repeat split; auto. exists (clientRequest c u). exact H7.
Qed.

(** A timeout calls for two retries when a retry is left, and rejects the
    call otherwise. *)
Lemma attempt_timed_out (net : Network) (st : State) (c : Call) (u : URL)
  (first : Racer) :
  URL_new (url c) None = inl u ->
  net (attempts st) (clientRequest c u) = TimedOut first ->
  let retried :=
    mkCall (url c) (options c) (retryCount c + 1) (redirectCount c) in
  exists events,
    count isDispatch events = 1%nat
    /\ (attempt net st c
        = (dispatched st u, events, RetryBoth retried retried first)
        /\ count isSleep events = 2%nat
        /\ (0 < retriesLeft c)%nat
        /\ retriesLeft retried = pred (retriesLeft c)
        \/ attempt net st c = (dispatched st u, events, Reject timeoutError)
           /\ count isSleep events = 0%nat
           /\ retriesLeft c = 0%nat).
Proof.
  intros HU HN. cbv zeta.
  rewrite (attempt_dispatched net st c u HU), HN. cbn [handle made].
  set (warning := if warnsInsecureTls st u then [WarnInsecureTls] else []).
  assert (Hw : forall p, p WarnInsecureTls = false -> count p warning = 0%nat).
  { intros p Hp. subst warning. unfold count.
    destruct (warnsInsecureTls st u); cbn; now rewrite ?Hp. }
  destruct (onTimeout_cases c first) as [[Hlt ->] | [Hge ->]]; cbn [fst snd].
  - eexists. split; [|left; split; [reflexivity|]].
    + rewrite count_app, Hw by reflexivity. reflexivity.
    + split; [|split].
      * rewrite count_app, Hw by reflexivity. reflexivity.
      * unfold retriesLeft. lia.
      * unfold retriesLeft. cbn [options retryCount]. lia.
  - eexists. split; [|right; split; [reflexivity|]].
    + rewrite count_app, Hw by reflexivity. reflexivity.
    + split.
      * rewrite count_app, Hw by reflexivity. reflexivity.
      * unfold retriesLeft. lia.
Qed.

(** How much a call can do at most: each timeout doubles what is left to
    do of the retries. *)
Lemma run_bounds (net : Network) :
  forall (st : State) (c : Call) (run : Run),
    makeRequest net st c = Some run ->
    (attempts st + count isDispatch (snd (fst run))
     <= attempts (fst (fst run)))%nat
    /\ (attempts (fst (fst run)) + 1
        <= attempts st + (redirectsLeft c + 2) * 2 ^ retriesLeft c)%nat
    /\ (count isSleep (snd (fst run)) + 2 <= 2 ^ (retriesLeft c + 1))%nat.
Proof.
  assert (Hpow : forall n, (1 <= 2 ^ n)%nat)
    by (intros n; apply Nat.neq_0_lt_0, Nat.pow_nonzero; discriminate).
  assert (Hdouble : forall n, (2 ^ (n + 1) = 2 * 2 ^ n)%nat)
    by (intros n; rewrite Nat.add_1_r; apply Nat.pow_succ_r').
  assert (Hsucc : forall n, (2 ^ S n = 2 * 2 ^ n)%nat)
    by (intros n; apply Nat.pow_succ_r').
  apply run_ind; cbn [fst snd].
  - intros st c st' events r HA.
    destruct (attempt_shape _ _ _ _ _ _ HA) as (Ha & Hd & _ & _ & _ & Hs & _).
    apply count_filter_nil in Hs. rewrite Hs, Hdouble.
    pose proof (Hpow (retriesLeft c)) as Hp.
    generalize dependent (2 ^ retriesLeft c)%nat. intros p Hp. nia.
  - intros st c st' events e HA.
    destruct (attempt_shape _ _ _ _ _ _ HA) as (Ha & Hd & _ & _ & _ & Hs & _).
    apply count_filter_nil in Hs. rewrite Hs, Hdouble.
    pose proof (Hpow (retriesLeft c)) as Hp.
    generalize dependent (2 ^ retriesLeft c)%nat. intros p Hp. nia.
  - intros st c st0 events c' st' trace result HA _ (IHd & IHa & IHs).
    rewrite !count_app.
    destruct HA as [HA|HA];
      destruct (attempt_shape _ _ _ _ _ _ HA) as (Ha & Hd & _ & _ & _ & Hn).
    + destruct Hn as (Hs & _ & _ & -> & Hlt).
      assert (count isSleep events = 1%nat) as ->
        by (unfold count; now rewrite Hs).
      assert (Hk : retriesLeft c
                   = S (retriesLeft (mkCall (url c) (options c)
                                       (S (retryCount c)) (redirectCount c))))
        by (unfold retriesLeft; cbn [options retryCount]; lia).
      assert (Hr : redirectsLeft (mkCall (url c) (options c)
                                    (S (retryCount c)) (redirectCount c))
                   = redirectsLeft c) by reflexivity.
      rewrite Hr in IHa. rewrite Hk, !Hdouble, Hsucc. rewrite Hdouble in IHs.
      pose proof (Hpow (retriesLeft (mkCall (url c) (options c)
                                       (S (retryCount c)) (redirectCount c))))
        as Hp.
      generalize dependent
        (2 ^ retriesLeft (mkCall (url c) (options c) (S (retryCount c))
                            (redirectCount c)))%nat.
      intros p IHa IHs Hp. nia.
    + destruct Hn as (Hs & _ & _ & Hrc & Hrd & Hmr & Hmd & _ & _ & Hlt).
      apply count_filter_nil in Hs. rewrite Hs.
      assert (Hk : retriesLeft c' = retriesLeft c)
        by (unfold retriesLeft; now rewrite Hrc, Hmr).
      assert (Hr : redirectsLeft c = S (redirectsLeft c'))
        by (unfold redirectsLeft; rewrite Hrd, Hmd; lia).
      rewrite Hk in IHa, IHs. rewrite Hr.
      pose proof (Hpow (retriesLeft c)) as Hp.
      rewrite Hdouble in *.
      generalize dependent (2 ^ retriesLeft c)%nat. intros p IHa IHs Hp. nia.
  - intros st c st0 events former latter first st1 trace1 result1
           st2 trace2 result2 HA _ (IHd1 & IHa1 & IHs1) _ (IHd2 & IHa2 & IHs2).
    rewrite !count_app.
    destruct (attempt_shape _ _ _ _ _ _ HA) as (Ha & Hd & _ & _ & _ & Hn).
    destruct Hn as (Hs & _ & _ & -> & -> & Hlt & _).
    assert (count isSleep events = 2%nat) as ->
      by (unfold count; now rewrite Hs).
    assert (Hk : retriesLeft c
                 = S (retriesLeft (mkCall (url c) (options c)
                                     (S (retryCount c)) (redirectCount c))))
      by (unfold retriesLeft; cbn [options retryCount]; lia).
    assert (Hr : redirectsLeft (mkCall (url c) (options c)
                                  (S (retryCount c)) (redirectCount c))
                 = redirectsLeft c) by reflexivity.
    rewrite Hr in IHa1, IHa2. rewrite Hk, !Hdouble, Hsucc.
    rewrite Hdouble in IHs1, IHs2.
    pose proof (Hpow (retriesLeft (mkCall (url c) (options c)
                                     (S (retryCount c)) (redirectCount c))))
      as Hp.
    generalize dependent
      (2 ^ retriesLeft (mkCall (url c) (options c) (S (retryCount c))
                          (redirectCount c)))%nat.
    intros p IHa1 IHs1 IHa2 IHs2 Hp. nia.
Qed.

(** With no timeout a call is one chain of activations. *)
Lemma run_counts (net : Network) :
  neverTimesOut net ->
  forall (st : State) (c : Call) (run : Run),
    makeRequest net st c = Some run ->
    (count isSleep (snd (fst run)) <= retriesLeft c)%nat
    /\ (count isFollow (snd (fst run)) <= redirectsLeft c)%nat
    /\ (attempts (fst (fst run))
        <= attempts st + 1 + count isSleep (snd (fst run))
           + count isFollow (snd (fst run)))%nat.
Proof.
  intros Hnever. apply run_ind; cbn [fst snd].
  - intros st c st' events r HA.
    destruct (attempt_shape _ _ _ _ _ _ HA) as (Ha & _ & _ & _ & _ & Hs & Hf & _).
    apply count_filter_nil in Hs. lia.
  - intros st c st' events e HA.
    destruct (attempt_shape _ _ _ _ _ _ HA) as (Ha & _ & _ & _ & _ & Hs & _ & Hf).
    apply count_filter_nil in Hs. unfold redirectsLeft.
    destruct Hf as [Hf | (Hf & _ & Hlt)]; lia.
  - intros st c st0 events c' st' trace result HA _ (IHs & IHf & IHa).
    rewrite !count_app.
    destruct HA as [HA|HA];
      destruct (attempt_shape _ _ _ _ _ _ HA) as (Ha & _ & _ & _ & _ & Hn).
    + destruct Hn as (Hs & Hf & _ & -> & Hlt).
      assert (count isSleep events = 1%nat) as ->
        by (unfold count; now rewrite Hs).
      unfold retriesLeft, redirectsLeft in *.
      cbn [options retryCount redirectCount] in *. lia.
    + destruct Hn as (Hs & Hf & _ & Hrc & Hrd & Hmr & Hmd & _ & _ & Hlt).
      apply count_filter_nil in Hs.
      unfold retriesLeft, redirectsLeft in *. rewrite Hrc, Hrd, Hmr, Hmd in *.
      lia.
  - intros st c st0 events former latter first st1 trace1 result1
           st2 trace2 result2 HA.
    destruct (attempt_shape _ _ _ _ _ _ HA)
      as (_ & _ & _ & _ & _ & _ & _ & _ & _ & _ & _ & req & Hout).
    now destruct (Hnever _ _ _ Hout).
Qed.

(** On a transport where every request times out the doubling is exact. *)
Lemma run_always_timed_out (net : Network) :
  alwaysTimesOut net ->
  forall (k : nat) (st : State) (c : Call) (u : URL),
    URL_new (url c) None = inl u ->
    retriesLeft c = k ->
    exists st' trace result,
      makeRequest net st c = Some (st', trace, result)
      /\ (count isDispatch trace + 1 = 2 ^ (k + 1))%nat
      /\ (count isSleep trace + 2 = 2 ^ (k + 1))%nat.
Proof.
  intros Halways. induction k as [|k IH]; intros st c u HU Hk;
    destruct (Halways (attempts st) (clientRequest c u)) as [first HN];
    destruct (attempt_timed_out net st c u first HU HN)
      as (events & Hd & [(HA & Hs & Hpos & Hleft) | (HA & Hs & Hzero)]);
    try lia; rewrite makeRequest_unfold, HA.
  - do 3 eexists. split; [reflexivity|]. rewrite Hd, Hs. cbn. lia.
  - rewrite Hk in Hleft. cbn [pred] in Hleft.
    set (retried := mkCall (url c) (options c) (retryCount c + 1)
                      (redirectCount c)) in *.
    destruct (IH (dispatched st u) retried u HU Hleft)
      as (st1 & trace1 & result1 & -> & Hd1 & Hs1).
    cbn [race].
    destruct (IH st1 retried u HU Hleft)
      as (st2 & trace2 & result2 & -> & Hd2 & Hs2).
    cbn [after]. do 3 eexists. split; [reflexivity|].
    rewrite !count_app, Hd, Hs.
    replace (S k + 1)%nat with (S (k + 1)) by lia.
    rewrite Nat.pow_succ_r'. lia.
Qed.

(** X1.  A call makes at most [(redirects + 2) * 2 ^ retries - 1] requests
    and sleeps at most [2 ^ (retries + 1) - 2] times, [retries] and
    [redirects] being what is left of its two budgets: a request that times
    out before any response is retried twice, once for the synthesized
    error and once for node's own.  When no request times out the call
    sleeps at most [retries] times, follows at most [redirects] redirects
    and makes one request more than both together, at most; when every
    request times out it makes exactly [2 ^ (retries + 1) - 1] requests. *)
Theorem budgets_are_respected :
  forall (net : Network) (st st' : State) (c : Call) (trace : list Event)
         (result : Settled CustomResponse),
    makeRequest net st c = Some (st', trace, result) ->
    ((attempts st + count isDispatch trace <= attempts st')%nat
     /\ (attempts st' + 1
         <= attempts st + (redirectsLeft c + 2) * 2 ^ retriesLeft c)%nat
     /\ (count isSleep trace + 2 <= 2 ^ (retriesLeft c + 1))%nat)
    /\ (neverTimesOut net ->
        (count isSleep trace <= retriesLeft c)%nat
        /\ (count isFollow trace <= redirectsLeft c)%nat
        /\ (attempts st'
            <= attempts st + 1 + count isSleep trace + count isFollow trace)%nat)
    /\ (alwaysTimesOut net ->
        forall u,
          URL_new (url c) None = inl u ->
          (count isDispatch trace + 1 = 2 ^ (retriesLeft c + 1))%nat
          /\ (count isSleep trace + 2 = 2 ^ (retriesLeft c + 1))%nat).
Proof.
  intros net st st' c trace result H. split; [|split].
  - exact (run_bounds net st c _ H).
  - intros Hnever. exact (run_counts net Hnever st c _ H).
  - intros Halways u HU.
    destruct (run_always_timed_out net Halways _ st c u HU eq_refl)
      as (st2 & trace2 & result2 & H2 & Hd & Hs).
    rewrite H in H2. injection H2 as <- <- <-. now split.
Qed.

(** The sleeps of a run: each is a step of the linear backoff. *)
Lemma run_sleeps_steps (net : Network) :
  forall (st : State) (c : Call) (run : Run),
    makeRequest net st c = Some run ->
    forall ms,
      In (Sleep ms) (snd (fst run)) ->
      exists k,
        (retryCount c <= k)%nat
        /\ (Z.of_nat k < maxRetriesOf (options c))%Z
        /\ ms = (retryDelayOf (options c) * (Z.of_nat k + 1))%Z.
Proof.
  assert (own : forall events ms,
             In (Sleep ms) events -> In (Sleep ms) (filter isSleep events))
    by (intros events ms Hin; apply filter_In; auto).
  apply (run_ind net
           (fun st c run =>
              forall ms,
                In (Sleep ms) (snd (fst run)) ->
                exists k,
                  (retryCount c <= k)%nat
                  /\ (Z.of_nat k < maxRetriesOf (options c))%Z
                  /\ ms = (retryDelayOf (options c) * (Z.of_nat k + 1))%Z));
    cbn [fst snd].
  - intros st c st' events r HA ms Hin. apply own in Hin.
    destruct (attempt_shape _ _ _ _ _ _ HA) as (_ & _ & _ & _ & _ & Hs & _).
    rewrite Hs in Hin. destruct Hin.
  - intros st c st' events e HA ms Hin. apply own in Hin.
    destruct (attempt_shape _ _ _ _ _ _ HA) as (_ & _ & _ & _ & _ & Hs & _).
    rewrite Hs in Hin. destruct Hin.
  - intros st c st0 events c' st' trace result HA _ IH ms Hin.
    apply in_app_or in Hin.
    destruct HA as [HA|HA];
      destruct (attempt_shape _ _ _ _ _ _ HA) as (_ & _ & _ & _ & _ & Hn).
    + destruct Hn as (Hs & _ & _ & -> & Hlt).
      destruct Hin as [Hin|Hin].
      * apply own in Hin. rewrite Hs in Hin.
        destruct Hin as [[= <-] | []]. exists (retryCount c). auto.
      * destruct (IH ms Hin) as (k & Hk & Hmax & ->).
        cbn [options retryCount] in *. exists k. repeat split; auto; lia.
    + destruct Hn as (Hs & _ & _ & Hrc & _ & Hmr & _ & Hdelay & _).
      destruct Hin as [Hin|Hin].
      * apply own in Hin. rewrite Hs in Hin. destruct Hin.
      * destruct (IH ms Hin) as (k & Hk & Hmax & ->).
        rewrite Hrc, Hmr, Hdelay in *. exists k. auto.
  - intros st c st0 events former latter first st1 trace1 result1
           st2 trace2 result2 HA _ IH1 _ IH2 ms Hin.
    destruct (attempt_shape _ _ _ _ _ _ HA) as (_ & _ & _ & _ & _ & Hn).
    destruct Hn as (Hs & _ & _ & -> & -> & Hlt & _).
    apply in_app_or in Hin. destruct Hin as [Hin|Hin].
    + apply own in Hin. rewrite Hs in Hin.
      destruct Hin as [[= <-] | [[= <-] | []]]; exists (retryCount c); auto.
    + apply in_app_or in Hin.
      destruct Hin as [Hin|Hin];
        [destruct (IH1 ms Hin) as (k & Hk & Hmax & ->)
        |destruct (IH2 ms Hin) as (k & Hk & Hmax & ->)];
        cbn [options retryCount] in *; exists k; repeat split; auto; lia.
Qed.

(** With no timeout they come in order, one per retry. *)
Lemma run_sleeps (net : Network) :
  neverTimesOut net ->
  forall (st : State) (c : Call) (run : Run),
    makeRequest net st c = Some run ->
    filter isSleep (snd (fst run))
    = map (fun k => Sleep (retryDelayOf (options c) * (Z.of_nat k + 1)))
        (seq (retryCount c) (count isSleep (snd (fst run)))).
Proof.
  intros Hnever. apply run_ind; cbn [fst snd].
  - intros st c st' events r HA. unfold count.
    destruct (attempt_shape _ _ _ _ _ _ HA) as (_ & _ & _ & _ & _ & Hs & _).
    now rewrite Hs.
  - intros st c st' events e HA. unfold count.
    destruct (attempt_shape _ _ _ _ _ _ HA) as (_ & _ & _ & _ & _ & Hs & _).
    now rewrite Hs.
  - intros st c st0 events c' st' trace result HA _ IH.
    unfold count in *. rewrite filter_app.
    destruct HA as [HA|HA];
      destruct (attempt_shape _ _ _ _ _ _ HA) as (_ & _ & _ & _ & _ & Hn).
    + destruct Hn as (-> & _ & _ & -> & _).
      cbn [options retryCount] in IH. rewrite IH at 1.
      cbn [app length seq map]. reflexivity.
    + destruct Hn as (-> & _ & _ & Hrc & _ & _ & _ & Hdelay & _).
      rewrite Hrc, Hdelay in IH. exact IH.
  - intros st c st0 events former latter first st1 trace1 result1
           st2 trace2 result2 HA.
    destruct (attempt_shape _ _ _ _ _ _ HA)
      as (_ & _ & _ & _ & _ & _ & _ & _ & _ & _ & _ & req & Hout).
    now destruct (Hnever _ _ _ Hout).
Qed.

(** X2.  Every sleep of a call is a step of the linear backoff: it lasts
    [retryDelay * (k + 1)] ms for a retry count [k] the call can reach,
    redirects in between changing nothing.  When no request times out
    before a response the sleeps are those for consecutive [k], in order,
    from the call's [retryCount] on. *)
Theorem backoff_schedule :
  forall (net : Network) (st st' : State) (c : Call) (trace : list Event)
         (result : Settled CustomResponse),
    makeRequest net st c = Some (st', trace, result) ->
    (forall ms,
       In (Sleep ms) trace ->
       exists k,
         (retryCount c <= k)%nat
         /\ (Z.of_nat k < maxRetriesOf (options c))%Z
         /\ ms = (retryDelayOf (options c) * (Z.of_nat k + 1))%Z)
    /\ (neverTimesOut net ->
        filter isSleep trace
        = map (fun k => Sleep (retryDelayOf (options c) * (Z.of_nat k + 1)))
            (seq (retryCount c) (count isSleep trace))).
Proof.
  intros net st st' c trace result H. split.
  - exact (run_sleeps_steps net st c _ H).
  - intros Hnever. exact (run_sleeps net Hnever st c _ H).
Qed.

(** X3.  The insecure-TLS warning is given at most once in a call, never
    when it was given before or when the override is off, and once given
    the latch is set when the call ends. *)
Theorem insecure_tls_warning_at_most_once :
  forall (net : Network) (st st' : State) (c : Call) (trace : list Event)
         (result : Settled CustomResponse),
    makeRequest net st c = Some (st', trace, result) ->
    (count isTlsWarning trace <= 1)%nat
    /\ (hasShownInsecureTlsWarning st = true ->
        count isTlsWarning trace = 0%nat
        /\ hasShownInsecureTlsWarning st' = true)
    /\ (allowInsecureTls = false -> count isTlsWarning trace = 0%nat)
    /\ (count isTlsWarning trace = 1%nat ->
        hasShownInsecureTlsWarning st' = true).
Proof.
  intros net st st' c trace result H.
  enough (count isTlsWarning trace
          = (if negb (hasShownInsecureTlsWarning st)
                && hasShownInsecureTlsWarning st' then 1 else 0)%nat
          /\ (hasShownInsecureTlsWarning st = true ->
              hasShownInsecureTlsWarning st' = true)
          /\ (allowInsecureTls = false ->
              hasShownInsecureTlsWarning st' = hasShownInsecureTlsWarning st))
    as (Hc & Hmono & Hoff).
  { rewrite Hc.
    destruct (hasShownInsecureTlsWarning st);
      destruct (hasShownInsecureTlsWarning st'); cbn;
      repeat split; auto; try discriminate; intros Hx;
      try (specialize (Hmono eq_refl)); try (specialize (Hoff Hx));
      try split; congruence. }
  refine (run_ind net
            (fun st c run =>
               count isTlsWarning (snd (fst run))
               = (if negb (hasShownInsecureTlsWarning st)
                     && hasShownInsecureTlsWarning (fst (fst run))
                  then 1 else 0)%nat
               /\ (hasShownInsecureTlsWarning st = true ->
                   hasShownInsecureTlsWarning (fst (fst run)) = true)
               /\ (allowInsecureTls = false ->
                   hasShownInsecureTlsWarning (fst (fst run))
                   = hasShownInsecureTlsWarning st))
            _ _ _ _ st c (st', trace, result) H);
    clear st st' c trace result H; cbn [fst snd].
  - intros st c st' events r HA.
    destruct (attempt_shape _ _ _ _ _ _ HA) as (_ & _ & Hw & Hmono & Hoff & _).
    auto.
  - intros st c st' events e HA.
    destruct (attempt_shape _ _ _ _ _ _ HA) as (_ & _ & Hw & Hmono & Hoff & _).
    auto.
  - intros st c st0 events c' st' trace result HA _ (IHc & IHmono & IHoff).
    assert (HS : count isTlsWarning events
                 = (if negb (hasShownInsecureTlsWarning st)
                       && hasShownInsecureTlsWarning st0 then 1 else 0)%nat
                 /\ (hasShownInsecureTlsWarning st = true ->
                     hasShownInsecureTlsWarning st0 = true)
                 /\ (allowInsecureTls = false ->
                     hasShownInsecureTlsWarning st0
                     = hasShownInsecureTlsWarning st)).
    { destruct HA as [HA|HA];
        destruct (attempt_shape _ _ _ _ _ _ HA) as (_ & _ & Hw & Hm & Ho & _);
        auto. }
    destruct HS as (Hw & Hmono & Hoff).
    rewrite count_app, Hw, IHc.
    destruct (hasShownInsecureTlsWarning st),
      (hasShownInsecureTlsWarning st0), (hasShownInsecureTlsWarning st');
      cbn in *; repeat split; auto;
      try (specialize (Hmono eq_refl)); try (specialize (IHmono eq_refl));
      try discriminate;
      intros Hx; try (specialize (Hoff Hx)); try (specialize (IHoff Hx));
      congruence.
  - intros st c st0 events former latter first st1 trace1 result1
           st2 trace2 result2 HA _ (IHc1 & IHmono1 & IHoff1)
           _ (IHc2 & IHmono2 & IHoff2).
    destruct (attempt_shape _ _ _ _ _ _ HA) as (_ & _ & Hw & Hmono & Hoff & _).
    rewrite !count_app, Hw, IHc1, IHc2.
    destruct (hasShownInsecureTlsWarning st),
      (hasShownInsecureTlsWarning st0), (hasShownInsecureTlsWarning st1),
      (hasShownInsecureTlsWarning st2);
      cbn in *; repeat split; auto;
      try (specialize (Hmono eq_refl)); try (specialize (IHmono1 eq_refl));
      try (specialize (IHmono2 eq_refl)); try discriminate;
      intros Hx; try (specialize (Hoff Hx)); try (specialize (IHoff1 Hx));
      try (specialize (IHoff2 Hx)); congruence.
Qed.



(** X5.  With [followRedirects] off a call follows no redirect and never
    warns about the redirect limit, whatever the responses. *)
Theorem redirects_off_follows_nothing :
  forall (net : Network) (st st' : State) (c : Call) (trace : list Event)
         (result : Settled CustomResponse),
    makeRequest net st c = Some (st', trace, result) ->
    followRedirectsOf (options c) = false ->
    count isFollow trace = 0%nat /\ count isLimitWarning trace = 0%nat.
Proof.
  intros net st st' c trace result H.
  refine (run_ind net
            (fun st c run =>
               followRedirectsOf (options c) = false ->
               count isFollow (snd (fst run)) = 0%nat
               /\ count isLimitWarning (snd (fst run)) = 0%nat)
            _ _ _ _ st c (st', trace, result) H);
    clear st st' c trace result H; cbn [fst snd].
  - intros st c st' events r HA Hoff.
    destruct (attempt_shape _ _ _ _ _ _ HA) as (_ & _ & _ & _ & _ & Hn).
    destruct Hn as (_ & -> & [-> | Hon]); [split; reflexivity | congruence].
  - intros st c st' events e HA Hoff.
    destruct (attempt_shape _ _ _ _ _ _ HA) as (_ & _ & _ & _ & _ & Hn).
    destruct Hn as (_ & -> & [-> | (_ & Hon & _)]);
      [split; reflexivity | congruence].
  - intros st c st0 events c' st' trace result HA _ IH Hoff.
    rewrite !count_app.
    destruct HA as [HA|HA];
      destruct (attempt_shape _ _ _ _ _ _ HA) as (_ & _ & _ & _ & _ & Hn).
    + destruct Hn as (_ & -> & -> & -> & _).
      cbn [options] in IH. destruct (IH Hoff) as [-> ->]. split; reflexivity.
    + destruct Hn as (_ & _ & _ & _ & _ & _ & _ & _ & Hon & _). congruence.
  - intros st c st0 events former latter first st1 trace1 result1
           st2 trace2 result2 HA _ IH1 _ IH2 Hoff.
    rewrite !count_app.
    destruct (attempt_shape _ _ _ _ _ _ HA) as (_ & _ & _ & _ & _ & Hn).
    destruct Hn as (_ & -> & -> & -> & -> & _).
    cbn [options] in IH1, IH2.
    destruct (IH1 Hoff) as [-> ->]. destruct (IH2 Hoff) as [-> ->].
    split; reflexivity.
Qed.

End Runs.

(** * Header objects *)

Lemma normalizeEntry_wireName (acc : Obj string) (entry : string * string) :
  normalizeEntry acc entry = obj_set (wireName (fst entry)) (snd entry) acc.
Proof.
  destruct entry as [key value]. unfold normalizeEntry, wireName. cbn [fst snd].
  now destruct (isCfAccess key).
Qed.

Lemma wireName_idempotent (key : string) :
  wireName (wireName key) = wireName key.
Proof.
  unfold wireName. destruct (isCfAccess key) eqn:Hcf.
  - now rewrite Hcf.
  - now rewrite isCfAccess_toLowerCase, Hcf, toLowerCase_idempotent.
Qed.

Lemma keys_normalizeHeaders (entries : Obj string) (k : string) :
  In k (keys (normalizeHeaders (Some entries))) <->
  exists key value, In (key, value) entries /\ k = wireName key.
Proof.
  unfold normalizeHeaders. rewrite keys_fold_normalizeEntry. cbn [keys map In].
  unfold wireName. tauto.
Qed.

Lemma NoDup_fold_normalizeEntry (entries acc : Obj string) :
  NoDup (keys acc) -> NoDup (keys (fold_left normalizeEntry entries acc)).
Proof.
  revert acc. induction entries as [|entry entries IH]; intros acc Hnd.
  - exact Hnd.
  - cbn [fold_left]. apply IH. rewrite normalizeEntry_wireName.
    now apply NoDup_keys_obj_set.
Qed.

(** X6.  The normalised header object has one entry per name, and two of
    its names that differ only in letter case are both Cloudflare Access
    names: every other header is sent once, in lower case. *)
Theorem normalized_names_are_unique :
  forall (mergedHeaders : option (Obj string)),
    let sent := keys (normalizeHeaders mergedHeaders) in
    NoDup sent
    /\ forall k1 k2,
         In k1 sent -> In k2 sent ->
         toLowerCase k1 = toLowerCase k2 -> k1 <> k2 ->
         isCfAccess k1 = true /\ isCfAccess k2 = true.
Proof.
  intros [entries|]; cbn zeta.
  2:{ split; [constructor | intros ? ? []]. }
  split; [apply NoDup_fold_normalizeEntry; constructor|].
  assert (fixed : forall k,
             In k (keys (normalizeHeaders (Some entries))) ->
             isCfAccess k = false -> toLowerCase k = k).
  { intros k Hk Hcf. apply keys_normalizeHeaders in Hk.
    destruct Hk as (key & value & _ & ->).
    rewrite <- (wireName_idempotent key) at 2.
    unfold wireName at 2. now rewrite Hcf. }
  intros k1 k2 H1 H2 Hfold Hne.
  assert (Hsame : isCfAccess k1 = isCfAccess k2)
    by now rewrite <- (isCfAccess_toLowerCase k1), Hfold, isCfAccess_toLowerCase.
  destruct (isCfAccess k1) eqn:Hcf1; [now split|].
  exfalso. apply Hne.
  rewrite <- (fixed k1 H1 Hcf1), <- (fixed k2 H2) by congruence. exact Hfold.
Qed.


Lemma fold_obj_set_fresh {A} (f : string -> string) (l acc : Obj A) :
  NoDup (keys acc ++ keys l) ->
  (forall k, In k (keys l) -> f k = k) ->
  fold_left (fun o entry => obj_set (f (fst entry)) (snd entry) o) l acc
  = acc ++ l.
Proof.
  revert acc. induction l as [|[k v] l IH]; intros acc Hnd Hfix.
  - simpl. now rewrite app_nil_r.
  - cbn [fold_left fst snd]. rewrite (Hfix k) by now left.
    simpl keys in Hnd.
    rewrite obj_set_fresh.
    + rewrite IH.
      * now rewrite <- app_assoc.
      * unfold keys. rewrite map_app. simpl. rewrite <- app_assoc. exact Hnd.
      * intros k' Hk'. apply Hfix. now right.
    + intros Hin. apply NoDup_remove_2 in Hnd. apply Hnd.
      apply in_or_app. now left.
Qed.

(** X8.  Normalising is idempotent: a header object that came out of the
    normalisation goes through it unchanged, names, values and order. *)
Theorem normalizeHeaders_idempotent :
  forall (mergedHeaders : option (Obj string)),
    normalizeHeaders (Some (normalizeHeaders mergedHeaders))
    = normalizeHeaders mergedHeaders.
Proof.
  intros [entries|]; [|reflexivity].
  set (sent := normalizeHeaders (Some entries)).
  unfold normalizeHeaders at 1.
  assert (E : forall l acc,
             fold_left normalizeEntry l acc
             = fold_left
                 (fun o entry => obj_set (wireName (fst entry)) (snd entry) o)
                 l acc).
  { induction l as [|entry l IH]; intros acc; [reflexivity|].
    cbn [fold_left]. now rewrite IH, normalizeEntry_wireName. }
  rewrite E.
  rewrite fold_obj_set_fresh; [reflexivity| |].
  - apply NoDup_fold_normalizeEntry. constructor.
  - intros k Hk. apply keys_normalizeHeaders in Hk.
    destruct Hk as (key & value & _ & ->). apply wireName_idempotent.
Qed.

(** X9.  A response whose header object has one entry per name hands over
    the same names in the same order, a multi-valued header with its values
    joined by a comma and a space; a name the response lacks is absent. *)
Theorem response_headers_are_flattened :
  forall (res : IncomingMessage) (chunks : list Buffer),
    NoDup (keys (res_headers res)) ->
    resp_headers (buildResponse res chunks)
    = map (fun entry => (fst entry, headerValueText (snd entry)))
        (res_headers res)
    /\ forall k,
         obj_get k (resp_headers (buildResponse res chunks))
         = option_map headerValueText (obj_get k (res_headers res)).
Proof.
  intros res chunks Hnd.
  assert (E : resp_headers (buildResponse res chunks)
              = map (fun entry => (fst entry, headerValueText (snd entry)))
                  (res_headers res)).
  { cbn [buildResponse resp_headers]. unfold fromEntries.
    change (fun o kv => obj_set (fst kv) (snd kv) o)
      with (fun (o : Obj string) kv => obj_set ((fun k => k) (fst kv)) (snd kv) o).
    rewrite fold_obj_set_fresh; [reflexivity| |auto].
    cbn [keys map app]. unfold keys. rewrite map_map. exact Hnd. }
  split; [exact E|]. intros k. rewrite E. clear E Hnd.
  induction (res_headers res) as [|[k' v] l IH]; [reflexivity|].
  cbn [map fst snd obj_get].
  now destruct (String.eqb k' k).
Qed.

(** * The constants of ./common in a host *)

Lemma withCommon_constants (base : Host) (m : Common.Exports) :
  @customFetchOptions_headers (withCommon base m)
  = Common.customFetchOptions_headers m
  /\ @customFetchOptions_maxRetries (withCommon base m)
     = Common.policy_maxRetries (Common.customFetchOptions_policy m)
  /\ @customFetchOptions_retryDelay (withCommon base m)
     = Common.policy_retryDelay (Common.customFetchOptions_policy m)
  /\ @allowInsecureTls (withCommon base m) = Common.allowInsecureTls m.
Proof. repeat split. Qed.

(** * ensureUTCTimezone *)

Module CommonFacts.
Import Common.

Lemma chars_app (a b : string) :
  list_ascii_of_string (a ++ b)
  = list_ascii_of_string a ++ list_ascii_of_string b.
Proof. induction a as [|c a IH]; simpl; [reflexivity | now rewrite IH]. Qed.

Lemma string_app (a b : list ascii) :
  string_of_list_ascii (a ++ b)
  = (string_of_list_ascii a ++ string_of_list_ascii b)%string.
Proof. induction a as [|c a IH]; simpl; [reflexivity | now rewrite IH]. Qed.

Lemma backwards_app (a b : string) :
  backwards (a ++ b) = backwards b ++ backwards a.
Proof. unfold backwards. now rewrite chars_app, rev_app_distr. Qed.

Lemma forwards_backwards (s : string) :
  string_of_list_ascii (rev (backwards s)) = s.
Proof.
  unfold backwards. now rewrite rev_involutive, string_of_list_ascii_of_string.
Qed.

Lemma backwards_string (l : list ascii) :
  backwards (string_of_list_ascii l) = rev l.
Proof. unfold backwards. now rewrite list_ascii_of_string_of_list_ascii. Qed.

Lemma nonEmpty_backwards (s : string) :
  nonEmpty s = match backwards s with [] => false | _ :: _ => true end.
Proof.
  unfold backwards. destruct s as [|c s]; [reflexivity|]. simpl.
  now destruct (rev (list_ascii_of_string s)).
Qed.

Lemma includesZ_app (a b : string) :
  includesZ (a ++ b) = includesZ a || includesZ b.
Proof. unfold includesZ. now rewrite chars_app, existsb_app. Qed.

Lemma includesZ_backwards (s : string) :
  includesZ s = existsb (Ascii.eqb "Z") (backwards s).
Proof.
  unfold includesZ, backwards.
  induction (list_ascii_of_string s) as [|c l IH]; [reflexivity|].
  cbn [rev existsb]. rewrite existsb_app, IH. cbn [existsb].
  now rewrite orb_false_r, orb_comm.
Qed.

Lemma replaceFirstZ_app (a b : string) :
  includesZ a = false ->
  replaceFirstZ (a ++ b) = (a ++ replaceFirstZ b)%string.
Proof.
  unfold includesZ. induction a as [|c a IH]; [reflexivity|].
  cbn [list_ascii_of_string existsb append replaceFirstZ].
  rewrite (Ascii.eqb_sym "Z" c).
  destruct (Ascii.eqb c "Z"); cbn [orb]; [discriminate|].
  intros H. now rewrite IH.
Qed.

Lemma replaceFirstZ_without (s : string) :
  includesZ s = false -> replaceFirstZ s = s.
Proof.
  unfold includesZ. induction s as [|c s IH]; [reflexivity|].
  cbn [list_ascii_of_string existsb replaceFirstZ].
  rewrite (Ascii.eqb_sym "Z" c).
  destruct (Ascii.eqb c "Z"); cbn [orb]; [discriminate|].
  intros H. now rewrite IH.
Qed.

Lemma digit_is_not_Z (c : ascii) :
  isDigit c = true -> Ascii.eqb "Z" c = false.
Proof.
  destruct c as [[] [] [] [] [] [] [] []]; vm_compute; intros; congruence.
Qed.

Lemma sign_is_not_Z (c : ascii) :
  isSign c = true -> Ascii.eqb "Z" c = false.
Proof.
  destruct c as [[] [] [] [] [] [] [] []]; vm_compute; intros; congruence.
Qed.

Lemma digit_is_not_colon (c : ascii) :
  isDigit c = true -> Ascii.eqb c ":" = false.
Proof.
  destruct c as [[] [] [] [] [] [] [] []]; vm_compute; intros; congruence.
Qed.

Lemma ensure_trailing_Z (p : string) :
  includesZ p = false ->
  ensureUTCTimezone (p ++ "Z") = (p ++ " +0000")%string.
Proof.
  intros Hp. unfold ensureUTCTimezone.
  rewrite nonEmpty_backwards. unfold endsWithZ.
  rewrite backwards_app. cbn [backwards list_ascii_of_string rev app negb].
  change (Ascii.eqb "Z" "Z") with true. cbn [orb].
  rewrite replaceFirstZ_app by exact Hp.
  change (replaceFirstZ "Z") with " +0000".
  unfold dropOffsetColon. rewrite backwards_app.
  reflexivity.
Qed.

Lemma ensure_plain_offset (t : string) :
  includesZ t = false ->
  endsWithPlainOffset t = true ->
  ensureUTCTimezone t = t.
Proof.
  intros Ht Hoff. unfold endsWithPlainOffset in Hoff.
  unfold ensureUTCTimezone, hasOffset, dropOffsetColon.
  rewrite nonEmpty_backwards, Hoff, orb_true_r, orb_true_r.
  rewrite replaceFirstZ_without by exact Ht.
  destruct (backwards t) as [|d4 [|d3 [|d2 [|d1 [|sign rest]]]]];
    try discriminate.
  cbn [negb]. unfold plainOffset in Hoff.
  apply andb_true_iff in Hoff. destruct Hoff as [Hoff _].
  apply andb_true_iff in Hoff. destruct Hoff as [Hoff _].
  apply andb_true_iff in Hoff. destruct Hoff as [_ H2].
  unfold colonOffset. rewrite (digit_is_not_colon d2 H2).
  destruct rest; now rewrite ?andb_false_r.
Qed.

Lemma ensure_colon_offset (s : string) :
  includesZ s = false ->
  colonOffset (backwards s) = true ->
  exists d4 d3 d2 d1 sign rest,
    backwards s = d4 :: d3 :: ":"%char :: d2 :: d1 :: sign :: rest
    /\ isSign sign = true /\ isDigit d1 = true /\ isDigit d2 = true
    /\ isDigit d3 = true /\ isDigit d4 = true
    /\ ensureUTCTimezone s
       = string_of_list_ascii (rev (d4 :: d3 :: d2 :: d1 :: sign :: rest)).
Proof.
  intros Hs Hoff.
  unfold ensureUTCTimezone, hasOffset, dropOffsetColon.
  rewrite nonEmpty_backwards, Hoff, orb_true_r.
  rewrite replaceFirstZ_without by exact Hs.
  destruct (backwards s) as [|d4 [|d3 [|colon [|d2 [|d1 [|sign rest]]]]]];
    try discriminate.
  rewrite Hoff. cbn [negb]. unfold colonOffset in Hoff.
  repeat (apply andb_true_iff in Hoff; destruct Hoff as [Hoff ?]).
  match goal with H : Ascii.eqb colon ":" = true |- _ =>
    apply Ascii.eqb_eq in H; subst colon end.
  exists d4, d3, d2, d1, sign, rest. auto 10.
Qed.

Lemma ensure_bare (s : string) :
  nonEmpty s = true ->
  endsWithZ s = false ->
  hasOffset s = false ->
  ensureUTCTimezone s = (s ++ " +0000")%string.
Proof. intros H1 H2 H3. unfold ensureUTCTimezone. now rewrite H1, H2, H3. Qed.

(** The result for a date whose only Z, if any, is its last character. *)
Lemma ensure_result (s : string) :
  nonEmpty s = true ->
  interiorZ s = false ->
  includesZ (ensureUTCTimezone s) = false
  /\ endsWithPlainOffset (ensureUTCTimezone s) = true.
Proof.
  intros Hne Hint. rewrite nonEmpty_backwards in Hne. unfold interiorZ in Hint.
  destruct (backwards s) as [|c before] eqn:Hb; [discriminate|].
  destruct (Ascii.eqb_spec c "Z") as [->|Hc].
  - assert (Hs : s = (string_of_list_ascii (rev before) ++ "Z")%string).
    { rewrite <- (forwards_backwards s), Hb. cbn [rev]. now rewrite string_app. }
    assert (Hp : includesZ (string_of_list_ascii (rev before)) = false).
    { rewrite includesZ_backwards, backwards_string, rev_involutive.
      exact Hint. }
    rewrite Hs, ensure_trailing_Z by exact Hp. split.
    + rewrite includesZ_app, Hp. reflexivity.
    + unfold endsWithPlainOffset. rewrite backwards_app. reflexivity.
  - assert (Hs : includesZ s = false).
    { rewrite includesZ_backwards, Hb. cbn [existsb]. rewrite Hint.
      rewrite Ascii.eqb_sym.
      destruct (Ascii.eqb_spec c "Z"); [contradiction | reflexivity]. }
    destruct (colonOffset (backwards s)) eqn:Hcolon.
    + destruct (ensure_colon_offset s Hs Hcolon)
        as (d4 & d3 & d2 & d1 & sign & rest & Hr & Hsg & H1 & H2 & H3 & H4 & ->).
      split.
      * rewrite includesZ_backwards, backwards_string, rev_involutive.
        rewrite includesZ_backwards, Hr in Hs. cbn [existsb] in *.
        repeat (apply orb_false_iff in Hs; destruct Hs as [? Hs]).
        repeat (apply orb_false_iff; split); assumption.
      * unfold endsWithPlainOffset. rewrite backwards_string, rev_involutive.
        unfold plainOffset. now rewrite Hsg, H1, H2, H3, H4.
    + destruct (plainOffset (backwards s)) eqn:Hplain.
      * rewrite ensure_plain_offset by assumption. now split.
      * rewrite ensure_bare.
        -- split.
           ++ rewrite includesZ_app, Hs. reflexivity.
           ++ unfold endsWithPlainOffset. rewrite backwards_app. reflexivity.
        -- rewrite nonEmpty_backwards, Hb. reflexivity.
        -- unfold endsWithZ. rewrite Hb.
           destruct (Ascii.eqb_spec c "Z"); [contradiction | reflexivity].
        -- unfold hasOffset. now rewrite Hcolon, Hplain.
Qed.

(** X10.  [ensureUTCTimezone] on a date with no Z before its end: a trailing
    Z becomes [ +0000]; an offset [+hh:mm] or [-hh:mm] loses its colon; an
    offset without colon is left alone; any other non-empty date gets
    [ +0000] appended; the empty string stays empty. *)
Theorem ensureUTCTimezone_cases :
  forall p : string,
    includesZ p = false ->
    ensureUTCTimezone "" = ""
    /\ ensureUTCTimezone (p ++ "Z") = (p ++ " +0000")%string
    /\ (forall sign d1 d2 d3 d4,
          isSign sign = true ->
          isDigit d1 && isDigit d2 && isDigit d3 && isDigit d4 = true ->
          ensureUTCTimezone
            (p ++ string_of_list_ascii [sign; d1; d2; ":"%char; d3; d4])
          = (p ++ string_of_list_ascii [sign; d1; d2; d3; d4])%string
          /\ ensureUTCTimezone
               (p ++ string_of_list_ascii [sign; d1; d2; d3; d4])
             = (p ++ string_of_list_ascii [sign; d1; d2; d3; d4])%string)
    /\ (nonEmpty p = true -> hasOffset p = false ->
        ensureUTCTimezone p = (p ++ " +0000")%string).
Proof.
  intros p Hp. split; [reflexivity|]. split; [now apply ensure_trailing_Z|].
  split.
  - intros sign d1 d2 d3 d4 Hsign Hd.
    apply andb_true_iff in Hd. destruct Hd as [Hd Hd4].
    apply andb_true_iff in Hd. destruct Hd as [Hd Hd3].
    apply andb_true_iff in Hd. destruct Hd as [Hd1 Hd2].
    assert (HZ : forall suffix,
               forallb (fun c => negb (Ascii.eqb "Z" c)) suffix = true ->
               includesZ (p ++ string_of_list_ascii suffix) = false).
    { intros suffix Hall. rewrite includesZ_app, Hp. unfold includesZ.
      rewrite list_ascii_of_string_of_list_ascii. cbn [orb].
      induction suffix as [|c suffix IH]; [reflexivity|].
      cbn [forallb existsb] in *. apply andb_true_iff in Hall.
      destruct Hall as [Hc Hall]. apply negb_true_iff in Hc.
      now rewrite Hc, IH. }
    split.
    + destruct (ensure_colon_offset
                  (p ++ string_of_list_ascii [sign; d1; d2; ":"%char; d3; d4]))
        as (e4 & e3 & e2 & e1 & sg & rest & Hr & _ & _ & _ & _ & _ & ->).
      * apply HZ. cbn [forallb].
        rewrite (sign_is_not_Z sign), (digit_is_not_Z d1), (digit_is_not_Z d2),
          (digit_is_not_Z d3), (digit_is_not_Z d4) by assumption.
        reflexivity.
      * rewrite backwards_app, backwards_string. cbn [rev app colonOffset].
        now rewrite Hsign, Hd1, Hd2, Hd3, Hd4.
      * rewrite backwards_app, backwards_string in Hr. cbn [rev app] in Hr.
        injection Hr as <- <- <- <- <- <-.
        cbn [rev]. rewrite <- !app_assoc. cbn [app].
        unfold backwards. rewrite rev_involutive, string_app.
        now rewrite string_of_list_ascii_of_string.
    + apply ensure_plain_offset.
      * apply HZ. cbn [forallb].
        rewrite (sign_is_not_Z sign), (digit_is_not_Z d1), (digit_is_not_Z d2),
          (digit_is_not_Z d3), (digit_is_not_Z d4) by assumption.
        reflexivity.
      * unfold endsWithPlainOffset.
        rewrite backwards_app, backwards_string. cbn [rev app plainOffset].
        now rewrite Hsign, Hd1, Hd2, Hd3, Hd4.
  - intros Hne Hoff. apply ensure_bare; try assumption.
    unfold endsWithZ. rewrite includesZ_backwards in Hp.
    destruct (backwards p) as [|c rest]; [reflexivity|].
    cbn [existsb] in Hp. apply orb_false_iff in Hp.
    rewrite Ascii.eqb_sym. tauto.
Qed.

(** X11.  For a non-empty date with no Z before its end the result of
    [ensureUTCTimezone] ends with a numeric offset without colon, and
    holds no Z. *)
Theorem ensureUTCTimezone_ends_with_offset :
  forall s : string,
    nonEmpty s = true ->
    interiorZ s = false ->
    endsWithPlainOffset (ensureUTCTimezone s) = true
    /\ includesZ (ensureUTCTimezone s) = false.
Proof. intros s Hne Hint. now destruct (ensure_result s Hne Hint). Qed.

(** X12.  [ensureUTCTimezone] is idempotent on dates with no Z before their
    end. *)
Theorem ensureUTCTimezone_idempotent :
  forall s : string,
    interiorZ s = false ->
    ensureUTCTimezone (ensureUTCTimezone s) = ensureUTCTimezone s.
Proof.
  intros s Hint. destruct (nonEmpty s) eqn:Hne.
  - destruct (ensure_result s Hne Hint) as [HZ Hoff].
    now apply ensure_plain_offset.
  - destruct s; [reflexivity | discriminate].
Qed.

Lemma colonOffset_after_Z (l : list ascii) :
  colonOffset ("Z"%char :: l) = false.
Proof.
  destruct l as [|d3 [|colon [|d2 [|d1 [|sign rest]]]]]; try reflexivity.
  cbn [colonOffset]. change (isDigit "Z") with false. apply andb_false_r.
Qed.

Lemma dropOffsetColon_after_Z (s : string) (l : list ascii) :
  backwards s = "Z"%char :: l ->
  dropOffsetColon s = s /\ endsWithPlainOffset s = false.
Proof.
  intros Hb. unfold dropOffsetColon, endsWithPlainOffset. rewrite Hb. split.
  - destruct l as [|d3 [|colon rest]]; try reflexivity.
    now rewrite colonOffset_after_Z.
  - destruct l as [|d3 [|d2 [|d1 [|sign rest]]]]; try reflexivity.
    cbn [plainOffset]. change (isDigit "Z") with false. apply andb_false_r.
Qed.

(** X13.  Only the first Z is replaced: a date that ends with Z and holds an
    earlier Z keeps its last Z, and so does not end with an offset. *)
Theorem ensureUTCTimezone_replaces_first_Z :
  forall a b : string,
    includesZ a = false ->
    ensureUTCTimezone (a ++ "Z" ++ b ++ "Z")
    = (a ++ " +0000" ++ b ++ "Z")%string
    /\ endsWithPlainOffset (ensureUTCTimezone (a ++ "Z" ++ b ++ "Z")) = false.
Proof.
  intros a b Ha.
  destruct (dropOffsetColon_after_Z (a ++ " +0000" ++ b ++ "Z")
              (backwards b ++ backwards " +0000" ++ backwards a))
    as [Hdrop Hend].
  { rewrite !backwards_app. now rewrite <- !app_assoc. }
  assert (E : ensureUTCTimezone (a ++ "Z" ++ b ++ "Z")
              = (a ++ " +0000" ++ b ++ "Z")%string).
  { unfold ensureUTCTimezone. rewrite nonEmpty_backwards. unfold endsWithZ.
    rewrite !backwards_app.
    cbn [backwards list_ascii_of_string rev app negb].
    change (Ascii.eqb "Z" "Z") with true. cbn [orb].
    rewrite replaceFirstZ_app by exact Ha.
    change (replaceFirstZ ("Z" ++ b ++ "Z")) with (" +0000" ++ b ++ "Z")%string.
    exact Hdrop. }
  split; [exact E | now rewrite E].
Qed.

Section Services.
Variable trim : string -> string.
Variable Number : string -> JsNumber.

(** When [envIntWithDefault] yields a value. *)
Lemma envIntWithDefault_iff :
  forall (defaultValue min max : Z) (value : option string) (n : Z),
    envIntWithDefault Number defaultValue min max value = Some n <->
    (min <= n <= max)%Z
    /\ ((value = None \/ value = Some "") /\ n = defaultValue
        \/ exists s, value = Some s /\ nonEmpty s = true
                     /\ Number s = Integer n).
Proof.
  intros defaultValue min max value n.
  assert (R : forall z, intInRange min max (Integer z) = Some n <->
                        (min <= n <= max)%Z /\ n = z).
  { intros z. unfold intInRange.
    destruct (Z.leb_spec min z); destruct (Z.leb_spec z max); cbn [andb];
      split; try discriminate; try (intros [= <-]; lia);
      try (intros [[? ?] ->]; try lia; reflexivity). }
  unfold envIntWithDefault. destruct value as [s|].
  - destruct (nonEmpty s) eqn:Hs.
    + destruct (Number s) as [z|] eqn:HN.
      * rewrite R. split.
        -- intros [Hr ->]. split; [exact Hr|]. right. now exists s.
        -- intros [Hr [[[H|H] _] | (s' & H & _ & H')]].
           ++ discriminate.
           ++ injection H as ->. discriminate.
           ++ injection H as <-. split; congruence.
      * split; [discriminate|].
        intros [_ [[[H|H] _] | (s' & H & _ & H')]].
        -- discriminate.
        -- injection H as ->. discriminate.
        -- injection H as <-. congruence.
    + destruct s; [|discriminate]. rewrite R. split.
      * intros [Hr ->]. auto.
      * intros [Hr [[_ ->] | (s' & H & H' & _)]]; [auto|].
        injection H as <-. discriminate.
  - rewrite R. split.
    + intros [Hr ->]. auto.
    + intros [Hr [[_ ->] | (s' & H & _)]]; [auto | discriminate].
Qed.

(** X14.  [envIntWithDefault] yields a value exactly when the variable is
    unset or empty and the default lies in the range, or when the variable
    converts to an integer in the range; the value is then the default, or
    that integer. *)
Theorem envIntWithDefault_spec :
  forall (defaultValue min max : Z) (value : option string) (n : Z),
    envIntWithDefault Number defaultValue min max value = Some n <->
    (min <= n <= max)%Z
    /\ ((value = None \/ value = Some "") /\ n = defaultValue
        \/ exists s, value = Some s /\ nonEmpty s = true
                     /\ Number s = Integer n).
Proof.
  intros defaultValue min max value n.
  split; intros H; apply envIntWithDefault_iff; exact H.
Qed.

(** What the request policy is, when it parses. *)
Lemma requestPolicy_facts :
  forall env : Env,
    (forall p,
       requestPolicy Number env = Some p ->
       ((0 <= policy_maxRetries p <= 10)%Z
        /\ (100 <= policy_retryDelay p <= 10000)%Z
        /\ (1000 <= policy_timeout p <= 60000)%Z)
       /\ (unset (env "REQUEST_RETRY_MAX") -> policy_maxRetries p = 3%Z)
       /\ (unset (env "REQUEST_RETRY_DELAY_MS") -> policy_retryDelay p = 500%Z)
       /\ (unset (env "REQUEST_TIMEOUT_MS") -> policy_timeout p = 8000%Z))
    /\ (unset (env "REQUEST_RETRY_MAX") ->
        unset (env "REQUEST_RETRY_DELAY_MS") ->
        unset (env "REQUEST_TIMEOUT_MS") ->
        requestPolicy Number env = Some (mkPolicy 3 500 8000)).
Proof.
  intros env. split.
  - intros p. unfold requestPolicy.
    destruct (envIntWithDefault Number 3 0 10 _) as [a|] eqn:Ha;
      [|discriminate].
    destruct (envIntWithDefault Number 500 100 10000 _) as [b|] eqn:Hb;
      [|discriminate].
    destruct (envIntWithDefault Number 8000 1000 60000 _) as [c|] eqn:Hc;
      [|discriminate].
    intros [= <-]. cbn.
    apply envIntWithDefault_iff in Ha, Hb, Hc.
    destruct Ha as [Ra Ha], Hb as [Rb Hb], Hc as [Rc Hc].
    split; [tauto|].
    assert (default : forall value d n,
               (value = None \/ value = Some "") /\ n = d
               \/ (exists s, value = Some s /\ nonEmpty s = true
                             /\ Number s = Integer n) ->
               unset value -> n = d).
    { intros value d n [[_ ->] | (s & -> & Hs & _)] [Hv | Hv];
        try reflexivity; try discriminate.
      injection Hv as ->. discriminate. }
    repeat split; eapply default; eassumption.
  - unfold unset, requestPolicy, envIntWithDefault.
    intros [-> | ->] [-> | ->] [-> | ->]; reflexivity.
Qed.

(** X15.  When the request policy parses, [maxRetries] lies in [0, 10],
    [retryDelay] in [100, 10000] and [timeout] in [1000, 60000], and each
    of them whose variable is unset or empty has its default: 3 retries,
    500 ms, 8000 ms.  With the three variables unset or empty the policy
    parses, whatever else the environment holds. *)
Theorem requestPolicy_range_and_defaults :
  forall env : Env,
    (forall p,
       requestPolicy Number env = Some p ->
       ((0 <= policy_maxRetries p <= 10)%Z
        /\ (100 <= policy_retryDelay p <= 10000)%Z
        /\ (1000 <= policy_timeout p <= 60000)%Z)
       /\ (unset (env "REQUEST_RETRY_MAX") -> policy_maxRetries p = 3%Z)
       /\ (unset (env "REQUEST_RETRY_DELAY_MS") -> policy_retryDelay p = 500%Z)
       /\ (unset (env "REQUEST_TIMEOUT_MS") -> policy_timeout p = 8000%Z))
    /\ (unset (env "REQUEST_RETRY_MAX") ->
        unset (env "REQUEST_RETRY_DELAY_MS") ->
        unset (env "REQUEST_TIMEOUT_MS") ->
        requestPolicy Number env = Some (mkPolicy 3 500 8000)).
Proof.
  intros env. destruct (requestPolicy_facts env) as [Hrange Hdefault].
  split; [exact Hrange | exact Hdefault].
Qed.

(** X16.  [getCloudflareAccessHeaders] holds a credential header exactly
    when its variable is set to something that is not blank; the value is
    the variable trimmed, and the name is a Cloudflare Access name, which
    header normalisation leaves as it is. *)
Theorem getCloudflareAccessHeaders_spec :
  forall (env : Env) (name value : string),
    (In (name, value) (getCloudflareAccessHeaders trim env) <->
     exists variable raw,
       ((name = "CF-Access-Client-Id" /\ variable = "CF_ACCESS_CLIENT_ID")
        \/ (name = "CF-Access-Client-Secret"
            /\ variable = "CF_ACCESS_CLIENT_SECRET"))
       /\ env variable = Some raw
       /\ nonEmpty (trim raw) = true
       /\ value = trim raw)
    /\ normalizeHeaders (Some (getCloudflareAccessHeaders trim env))
       = getCloudflareAccessHeaders trim env.
Proof.
  intros env name value. unfold getCloudflareAccessHeaders, setTrimmed.
  destruct (env "CF_ACCESS_CLIENT_ID") as [id|] eqn:Hid;
    destruct (env "CF_ACCESS_CLIENT_SECRET") as [secret|] eqn:Hsecret;
    try destruct (nonEmpty (trim id)) eqn:Hi;
    try destruct (nonEmpty (trim secret)) eqn:Hs;
    (split; [|reflexivity]); cbn [obj_set In String.eqb Ascii.eqb Bool.eqb];
    (split;
     [ intros H;
       repeat match goal with
              | H : _ \/ _ |- _ => destruct H as [H|H]
              | H : (_, _) = (_, _) |- _ => injection H as <- <-
              | H : False |- _ => destruct H
              end;
       (try now (exists "CF_ACCESS_CLIENT_ID", id; auto 10));
       (try now (exists "CF_ACCESS_CLIENT_SECRET", secret; auto 10))
     | intros (variable & raw & [[-> ->] | [-> ->]] & Hraw & Hne & ->);
       rewrite ?Hid, ?Hsecret in Hraw; try discriminate;
       injection Hraw as <-; try congruence; auto ]).
Qed.

End Services.

Section Loaded.
Variable trim : string -> string.
Variable Number : string -> JsNumber.

Lemma load_inv (version : string) (env : Env) (m : Exports) :
  load trim Number version env = Some m ->
  requestPolicy Number env = Some (customFetchOptions_policy m)
  /\ customFetchOptions_headers m = defaultHeaders trim version env
  /\ booleanFlag (env "ALLOW_INSECURE_TLS") = Some (allowInsecureTls m)
  /\ booleanFlag (env "SSR_STRICT_MODE") = Some (isSsrStrictMode m).
Proof.
  unfold load. destruct (requestPolicy Number env) as [policy|]; [|discriminate].
  destruct (booleanFlag (env "ALLOW_INSECURE_TLS")) as [insecure|];
    [|discriminate].
  destruct (booleanFlag (env "SSR_STRICT_MODE")) as [strict|]; [|discriminate].
  intros [= <-]. auto.
Qed.

(** X17.  With the module loaded from the environment, a call that does not
    override [maxRetries], [retryDelay] or [maxRedirects] makes fewer than
    [7 * 2 ^ 10] requests (at most 7167) and sleeps at most [2 ^ 11 - 2]
    times (2046), each time for at least 100 ms and at most 100 s; when no
    request times out before a response, it makes at most 16 requests and
    sleeps at most 10 times. *)
Theorem loaded_policy_bounds_a_call :
  forall (base : Host) (version : string) (env : Env) (m : Exports)
         (net : Network) (st st' : State) (target : string) (o : Options)
         (trace : list Event) (result : Settled CustomResponse),
    load trim Number version env = Some m ->
    maxRetries o = None -> retryDelay o = None -> maxRedirects o = None ->
    @customFetch (withCommon base m) net st target o
    = Some (st', trace, result) ->
    (attempts st' + 1 <= attempts st + 7 * 2 ^ 10)%nat
    /\ (count isSleep trace + 2 <= 2 ^ 11)%nat
    /\ (forall ms, In (Sleep ms) trace -> (100 <= ms <= 100000)%Z)
    /\ (neverTimesOut net ->
        (attempts st' <= attempts st + 16)%nat
        /\ (count isSleep trace <= 10)%nat).
Proof.
  intros base version env m net st st' target o trace result Hload Hr Hd Hm Hrun.
  apply load_inv in Hload. destruct Hload as (Hpolicy & _).
  apply (proj1 (requestPolicy_facts Number env)) in Hpolicy.
  destruct Hpolicy as ((Hretries & Hdelay & _) & _).
  unfold customFetch in Hrun.
  pose proof (run_bounds net st _ _ Hrun) as (_ & Ha & Hs).
  pose proof (run_sleeps_steps net st _ _ Hrun) as Hsteps.
  pose proof (fun Hnever => run_counts net Hnever st _ _ Hrun) as Hchain.
  cbn [fst snd] in Ha, Hs, Hsteps, Hchain.
  unfold retriesLeft, redirectsLeft in *.
  cbn [options retryCount redirectCount] in *.
  unfold maxRetriesOf, maxRedirectsOf, retryDelayOf in *.
  rewrite ?Hr, ?Hd, ?Hm in *. cbn [orDefault] in *.
  unfold DEFAULT_MAX_REDIRECTS in *.
  destruct (withCommon_constants base m) as (_ & E1 & E2 & _).
  rewrite E1 in *. rewrite E2 in *.
  set (retries := Z.to_nat
                    (policy_maxRetries (customFetchOptions_policy m)
                     - Z.of_nat 0)) in *.
  assert (Hle : (retries <= 10)%nat) by (subst retries; lia).
  assert (Hpow : (2 ^ retries <= 2 ^ 10)%nat)
    by (apply Nat.pow_le_mono_r; [discriminate | exact Hle]).
  assert (Hpow' : (2 ^ (retries + 1) <= 2 ^ 11)%nat)
    by (apply Nat.pow_le_mono_r; [discriminate | lia]).
  replace (Z.to_nat (5 - Z.of_nat 0)) with 5%nat in * by reflexivity.
  split; [|split; [|split]].
  - generalize dependent (2 ^ retries)%nat. generalize (2 ^ 10)%nat.
    intros. lia.
  - generalize dependent (2 ^ (retries + 1))%nat. generalize (2 ^ 11)%nat.
    intros. lia.
  - intros ms Hin. destruct (Hsteps ms Hin) as (k & _ & Hk & ->). nia.
  - intros Hnever. destruct (Hchain Hnever) as (Hsl & Hf & Hat). lia.
Qed.

(** X18.  With the module loaded from the environment, a request whose
    caller gave no [headers] carries the four default headers in lower
    case, [accept-encoding] empty, followed by the Cloudflare Access
    headers under their own names; a caller's [headers] replace all of
    them: every name sent then comes from the caller's entries. *)
Theorem default_headers_on_the_wire :
  forall (base : Host) (version : string) (env : Env) (m : Exports)
         (c : Call) (u : URL),
    load trim Number version env = Some m ->
    (headers (options c) = Absent ->
     req_headers (@clientRequest (withCommon base m) c u)
     = [("user-agent",
         ("Kuma-Mieru/" ++ version
          ++ " (https://github.com/Alice39s/kuma-mieru)")%string);
        ("accept", "text/html,application/json,*/*");
        ("accept-encoding", "");
        ("connection", "keep-alive")]
       ++ getCloudflareAccessHeaders trim env)
    /\ (forall h,
          headers (options c) = Present h ->
          forall k,
            In k (keys (req_headers (@clientRequest (withCommon base m) c u))) ->
            exists key value, In (key, value) h /\ k = wireName key).
Proof.
  intros base version env m c u Hload.
  apply load_inv in Hload. destruct Hload as (_ & Hheaders & _).
  unfold clientRequest. cbn [req_headers]. unfold mergedHeaders. split.
  - intros ->. destruct (withCommon_constants base m) as (-> & _).
    rewrite Hheaders.
    unfold defaultHeaders, getCloudflareAccessHeaders, setTrimmed, spread.
    destruct (env "CF_ACCESS_CLIENT_ID") as [id|];
      destruct (env "CF_ACCESS_CLIENT_SECRET") as [secret|];
      try destruct (nonEmpty (trim id));
      try destruct (nonEmpty (trim secret)); reflexivity.
  - intros h -> k Hk. now apply keys_normalizeHeaders in Hk.
Qed.

Lemma booleanFlag_true (value : option string) :
  booleanFlag value = Some true <->
  exists s, value = Some s /\ toLowerCase s = "true".
Proof.
  unfold booleanFlag. destruct value as [s|]; cbn [option_map].
  - destruct (String.eqb_spec (toLowerCase s) "true") as [E|E].
    + split; [intros _; now exists s | reflexivity].
    + split.
      * destruct (String.eqb (toLowerCase s) "false"); discriminate.
      * intros (s' & [= <-] & H). contradiction.
  - split; [discriminate | intros (s & H & _); discriminate].
Qed.

(** X19.  The module loads only when ALLOW_INSECURE_TLS and SSR_STRICT_MODE
    are unset or spell true or false in any letter case; a request to an
    https URL then pins TLS 1.2 to 1.3 and verifies the certificate unless
    ALLOW_INSECURE_TLS spells true, and a request to any other URL carries
    no TLS options. *)
Theorem certificate_verification_follows_env :
  forall (base : Host) (version : string) (env : Env) (m : Exports)
         (c : Call) (u : URL),
    load trim Number version env = Some m ->
    (forall name,
       name = "ALLOW_INSECURE_TLS" \/ name = "SSR_STRICT_MODE" ->
       env name = None
       \/ exists s, env name = Some s
                    /\ (toLowerCase s = "true" \/ toLowerCase s = "false"))
    /\ match req_tls (@clientRequest (withCommon base m) c u) with
       | Some tls =>
           protocol u = "https:"
           /\ minVersion tls = "TLSv1.2" /\ maxVersion tls = "TLSv1.3"
           /\ (rejectUnauthorized tls = false <->
               exists s, env "ALLOW_INSECURE_TLS" = Some s
                         /\ toLowerCase s = "true")
       | None => protocol u <> "https:"
       end.
Proof.
  intros base version env m c u Hload.
  apply load_inv in Hload. destruct Hload as (_ & _ & Htls & Hssr). split.
  - assert (F : forall value b,
               booleanFlag value = Some b ->
               value = None
               \/ exists s, value = Some s
                            /\ (toLowerCase s = "true"
                                \/ toLowerCase s = "false")).
    { intros value b. unfold booleanFlag.
      destruct value as [s|]; cbn [option_map]; [|now left].
      destruct (String.eqb_spec (toLowerCase s) "true");
        [intros _; right; exists s; auto|].
      destruct (String.eqb_spec (toLowerCase s) "false");
        [intros _; right; exists s; auto | discriminate]. }
    intros name [-> | ->]; eapply F; eassumption.
  - unfold clientRequest. cbn [req_tls].
    destruct (String.eqb_spec (protocol u) "https:") as [E|E]; [|exact E].
    cbn [minVersion maxVersion rejectUnauthorized].
    destruct (withCommon_constants base m) as (_ & _ & _ & ->).
    repeat split; try assumption.
    + intros H. apply negb_false_iff in H. rewrite H in Htls.
      now apply booleanFlag_true.
    + intros H. apply booleanFlag_true in H. rewrite H in Htls.
      injection Htls as <-. reflexivity.
Qed.

End Loaded.


End CommonFacts.

(** * generate-config: icon candidates and site metadata *)

Module GenerateConfigFacts.
Import GenerateConfig.

Section Services.
Variable trim : string -> string.

Lemma has_In (seen : list string) (x : string) :
  has seen x = true <-> In x seen.
Proof.
  unfold has. rewrite existsb_exists. split.
  - intros (y & Hy & E). apply String.eqb_eq in E. now subst.
  - intros H. exists x. split; [exact H | apply String.eqb_refl].
Qed.

(** The first source the loop keeps, trimmed. *)
Lemma fold_addSource (sources : list (option string)) :
  forall acc : list string,
    NoDup acc ->
    let state := fold_left (addSource trim) sources (acc, acc) in
    fst state = snd state
    /\ NoDup (snd state)
    /\ (forall x,
          In x (snd state) <->
          In x acc
          \/ exists s, In (Some s) sources /\ nonEmpty (trim s) = true
                       /\ x = trim s)
    /\ hd_error (snd state)
       = match hd_error acc with
         | Some x => Some x
         | None =>
             match find (usable trim) sources with
             | Some (Some s) => Some (trim s)
             | _ => None
             end
         end.
Proof.
  induction sources as [|source sources IH]; intros acc Hnd.
  - cbn. repeat split; auto.
    + intros [H | (s & [] & _)]; exact H.
    + now destruct acc.
  - cbn [fold_left].
    assert (Hstep :
              addSource trim (acc, acc) source = (acc, acc)
              /\ (usable trim source = false
                  \/ exists s, source = Some s /\ In (trim s) acc)
              \/ exists s,
                   source = Some s /\ nonEmpty (trim s) = true
                   /\ ~ In (trim s) acc
                   /\ addSource trim (acc, acc) source
                      = (acc ++ [trim s], acc ++ [trim s])).
    { unfold addSource, usable. destruct source as [s|]; [|auto].
      cbn [fst snd]. destruct (nonEmpty (trim s)) eqn:Hne; cbn [negb]; [|auto].
      destruct (has acc (trim s)) eqn:Hhas.
      - left. split; [reflexivity|]. right. exists s.
        split; [reflexivity | now apply has_In].
      - right. exists s. repeat split; auto.
        intros Hin. apply has_In in Hin. congruence. }
    destruct Hstep as [[-> Hskip] | (s & -> & Hne & Hfresh & ->)].
    + destruct (IH acc Hnd) as (H1 & H2 & H3 & H4).
      repeat split; auto.
      * intros Hx. apply H3 in Hx.
        destruct Hx as [Hx | (s & Hs & Hne & ->)]; [now left|].
        right. exists s. repeat split; auto. now right.
      * intros [Hx | (s & [Hs|Hs] & Hne & ->)]; apply H3.
        -- now left.
        -- subst source. destruct Hskip as [Hu | (s' & Hs' & Hin)].
           ++ cbn in Hu. congruence.
           ++ injection Hs' as <-. now left.
        -- right. exists s. auto.
      * rewrite H4. destruct (hd_error acc) as [x|] eqn:Hhd; [reflexivity|].
        cbn [find]. destruct Hskip as [-> | (s' & -> & Hin)]; [reflexivity|].
        destruct acc; [destruct Hin | discriminate].
    + assert (Hnd' : NoDup (acc ++ [trim s])).
      { apply NoDup_app; [exact Hnd | repeat constructor; intros [] |].
        intros a Ha [<- | []]. contradiction. }
      destruct (IH (acc ++ [trim s]) Hnd') as (H1 & H2 & H3 & H4).
      repeat split; auto.
      * intros Hx. apply H3 in Hx.
        destruct Hx as [Hx | (s' & Hs & Hne' & ->)].
        -- apply in_app_or in Hx. destruct Hx as [Hx | [<- | []]]; [now left|].
           right. exists s. repeat split; auto. now left.
        -- right. exists s'. repeat split; auto. now right.
      * intros [Hx | (s' & [[= <-]|Hs] & Hne' & ->)]; apply H3.
        -- left. apply in_or_app. now left.
        -- left. apply in_or_app. right. now left.
        -- right. exists s'. auto.
      * rewrite H4. cbn [find usable]. rewrite Hne.
        destruct acc; reflexivity.
Qed.

(** The candidates as a set, and why the last test is idle. *)
Lemma iconCandidates_facts :
  forall (sources : list (option string)) (defaultIcon : string),
    let candidates := buildIconCandidates trim sources defaultIcon in
    candidates = snd (collectIconCandidates trim sources defaultIcon)
    /\ candidates <> []
    /\ NoDup candidates
    /\ forall x,
         In x candidates <->
         x = defaultIcon
         \/ exists s, In (Some s) sources /\ nonEmpty (trim s) = true
                      /\ x = trim s.
Proof.
  intros sources defaultIcon.
  destruct (fold_addSource sources [] (NoDup_nil _)) as (H1 & H2 & H3 & _).
  cbv zeta in *.
  assert (C : exists l,
             snd (collectIconCandidates trim sources defaultIcon) = l
             /\ l <> [] /\ NoDup l
             /\ forall x,
                  In x l <->
                  x = defaultIcon
                  \/ exists s, In (Some s) sources /\ nonEmpty (trim s) = true
                               /\ x = trim s).
  { unfold collectIconCandidates. rewrite H1.
    destruct (has (snd (fold_left (addSource trim) sources ([], [])))
                defaultIcon) eqn:Hhas; cbn [negb snd].
    - apply has_In in Hhas. eexists. split; [reflexivity|].
      split; [intros E; rewrite E in Hhas; destruct Hhas|].
      split; [exact H2|]. intros x. rewrite H3. split.
      + intros [[] | H]; now right.
      + intros [-> | H]; [now apply H3 | now right].
    - eexists. split; [reflexivity|].
      split; [intros E; now apply app_eq_nil in E|].
      split.
      + apply NoDup_app; [exact H2 | repeat constructor; intros [] |].
        intros a Ha [<- | []]. apply has_In in Ha. congruence.
      + intros x. rewrite in_app_iff, H3. cbn [In]. split.
        * intros [[[] | H] | [<- | []]]; auto.
        * intros [-> | H]; auto. }
  destruct C as (l & Hl & Hne & Hnd & Hin).
  unfold buildIconCandidates. rewrite Hl.
  destruct l as [|x l]; [contradiction|]. cbn [length Nat.eqb].
  repeat split; auto; apply Hin.
Qed.

(** X20.  [buildIconCandidates] never returns an empty list, so its last
    test never fires; the list has no duplicate, always holds the default
    icon, and holds nothing besides the default and the sources that are
    not blank, trimmed. *)
Theorem buildIconCandidates_spec :
  forall (sources : list (option string)) (defaultIcon : string),
    let candidates := buildIconCandidates trim sources defaultIcon in
    candidates = snd (collectIconCandidates trim sources defaultIcon)
    /\ candidates <> []
    /\ NoDup candidates
    /\ forall x,
         In x candidates <->
         x = defaultIcon
         \/ exists s, In (Some s) sources /\ nonEmpty (trim s) = true
                      /\ x = trim s.
Proof.
  intros sources defaultIcon.
  destruct (iconCandidates_facts sources defaultIcon) as (H1 & H2 & H3 & H4).
  repeat split; try assumption; apply H4.
Qed.

(** The head of the candidates. *)
Lemma iconCandidates_first :
  forall (sources : list (option string)) (defaultIcon : string),
    hd_error (buildIconCandidates trim sources defaultIcon)
    = Some match find (usable trim) sources with
           | Some (Some s) => trim s
           | _ => defaultIcon
           end.
Proof.
  intros sources defaultIcon.
  destruct (iconCandidates_facts sources defaultIcon) as (-> & _).
  destruct (fold_addSource sources [] (NoDup_nil _)) as (H1 & _ & H3 & H4).
  cbv zeta in *. cbn [hd_error] in H4.
  unfold collectIconCandidates. rewrite H1.
  destruct (has (snd (fold_left (addSource trim) sources ([], [])))
              defaultIcon) eqn:Hhas; cbn [negb snd].
  - rewrite H4. apply has_In in Hhas.
    destruct (find (usable trim) sources) as [[s|]|] eqn:Hfind; try reflexivity.
    + exfalso. apply find_some in Hfind. now destruct Hfind.
    + destruct (snd (fold_left (addSource trim) sources ([], [])));
        [destruct Hhas | discriminate].
  - destruct (snd (fold_left (addSource trim) sources ([], []))) as [|x l];
      cbn [hd_error app] in *.
    + destruct (find (usable trim) sources) as [[s|]|]; try discriminate;
        reflexivity.
    + destruct (find (usable trim) sources) as [[s|]|]; try discriminate.
      exact H4.
Qed.

(** X21.  The first icon candidate is the first source that is not blank,
    trimmed, and the default icon when there is none. *)
Theorem buildIconCandidates_head :
  forall (sources : list (option string)) (defaultIcon : string),
    hd_error (buildIconCandidates trim sources defaultIcon)
    = Some match find (usable trim) sources with
           | Some (Some s) => trim s
           | _ => defaultIcon
           end.
Proof.
  intros sources defaultIcon.
  rewrite (iconCandidates_first sources defaultIcon). reflexivity.
Qed.

(** X22.  In the object [resolveSiteMeta] hands to the schema, a title or
    description set in the environment wins even when it is empty, then the
    remote value, then the default; the icon is the first of the
    environment's and the remote icon that is not blank, trimmed, and the
    default icon otherwise; it heads the candidates, which always hold the
    default icon. *)
Theorem siteMetaInput_priority :
  forall (defaults : DefaultMeta) (t d i : Resolved)
         (remoteMeta : option RemoteMeta),
    let input :=
      siteMetaInput trim defaults
        (mkOverrides (toOverride t) (toOverride d) (toOverride i)) remoteMeta in
    let remote (field : RemoteMeta -> option string) :=
      match remoteMeta with Some r => field r | None => None end in
    let remoteOrDefaultIcon :=
      match remote remote_icon with
      | Some r => if nonEmpty (trim r) then trim r else default_icon defaults
      | None => default_icon defaults
      end in
    title input
    = match resolved_value t with
      | Some v => v
      | None => orElse (remote remote_title) (default_title defaults)
      end
    /\ description input
       = match resolved_value d with
         | Some v => v
         | None =>
             orElse (remote remote_description) (default_description defaults)
         end
    /\ icon input
       = Some match resolved_value i with
              | Some v => if nonEmpty (trim v) then trim v
                          else remoteOrDefaultIcon
              | None => remoteOrDefaultIcon
              end
    /\ hd_error (iconCandidates input) = icon input
    /\ In (default_icon defaults) (iconCandidates input).
Proof.
  intros defaults t d i remoteMeta. cbv zeta.
  unfold siteMetaInput, toOverride.
  cbn [title description icon iconCandidates title_override
         description_override icon_override value isDefined].
  split; [now destruct (resolved_value t)|].
  split; [now destruct (resolved_value d)|].
  split.
  - rewrite iconCandidates_first. f_equal. cbn [find usable].
    destruct (resolved_value i) as [v|]; cbn [usable].
    + destruct (nonEmpty (trim v)); [reflexivity|].
      destruct remoteMeta as [[rt rd [r|]]|]; cbn [remote_icon usable];
        try reflexivity.
      now destruct (nonEmpty (trim r)).
    + destruct remoteMeta as [[rt rd [r|]]|]; cbn [remote_icon usable];
        try reflexivity.
      now destruct (nonEmpty (trim r)).
  - split; [reflexivity|].
    apply (iconCandidates_facts _ (default_icon defaults)). now left.
Qed.

End Services.

End GenerateConfigFacts.

(** * What a 303 forwards of the default headers *)

Section SeeOther.
Context {host : Host}.

(** X23.  After a followed 303 every header name of the forwarded request
    comes from an entry of the caller's own [headers] that the filter kept:
    none of the default headers is forwarded, and a caller that gave no
    [headers] has a forwarded request without any header. *)
Theorem see_other_forwards_only_caller_headers :
  forall (c : Call) (res : IncomingMessage) (chunks : list Buffer) (c' : Call)
         (u' : URL),
    snd (onEnd c res chunks) = Redirect c' ->
    statusIs res 303 = true ->
    (forall k,
       In k (keys (req_headers (clientRequest c' u'))) ->
       exists h key value,
         headers (options c) = Present h
         /\ In (key, value) h
         /\ keptOn303 (key, value) = true
         /\ k = wireName key)
    /\ ((forall h, headers (options c) <> Present h) ->
        req_headers (clientRequest c' u') = []).
Proof.
  intros c res chunks c' u' H H303. apply onEnd_redirect in H.
  destruct H as (_ & _ & _ & _ & u0 & _ & ->). rewrite H303.
  unfold clientRequest.
  cbn [req_headers options mergedHeaders redirectOptions303 headers].
  split.
  - intros k Hk. apply keys_normalizeHeaders in Hk.
    destruct Hk as (key & value & Hin & ->).
    assert (Hkey : In key (keys (redirectHeaders303 (options c))))
      by (apply in_map_iff; exists (key, value); auto).
    unfold redirectHeaders303 in Hkey.
    destruct (headers (options c)) as [| |h]; try destruct Hkey.
    apply keys_filter303 in Hkey. destruct Hkey as [[] | (v & Hv & Hkeep)].
    exists h, key, v. auto.
  - intros Hnone. unfold redirectHeaders303.
    destruct (headers (options c)) as [| |h]; try reflexivity.
    now destruct (Hnone h).
Qed.

End SeeOther.

(** * Runs on the example host *)

#[local] Existing Instance exampleHost.

(** The retry budget: three resets, then a 200; the sleeps are 500, 1000 and
    1500 ms and the fourth attempt's response is returned. *)
Example run_retry_then_ok :
  exists trace st,
    customFetch (netResetThenOk 3) freshState "http://a.example/" noOptions
    = Some (st, trace,
            Fulfilled
              (buildResponse (plainResponse 200 "OK")
                 [list_byte_of_string doc_a1]))
    /\ attempts st = 4%nat
    /\ filter (fun e => match e with Sleep _ => true | _ => false end) trace
       = [Sleep 500; Sleep 1000; Sleep 1500].
Proof. do 2 eexists. split; [vm_compute; reflexivity | split; reflexivity]. Qed.

(** Retry exhaustion: with [maxRetries = 2] and every attempt reset, the call
    is rejected with the error of the third attempt. *)
Example run_retry_exhausted :
  exists trace,
    customFetch netAlwaysReset freshState "http://a.example/"
      (mkOptions (Some 2%Z) None None None None None Absent None)
    = Some (mkState false 3, trace, RejectedWith connectionReset).
Proof. eexists. vm_compute. reflexivity. Qed.

(** The redirect budget: with [maxRedirects = 5] and a server that always
    answers 302, the sixth response is returned, with [ok] false. *)
Example run_redirect_budget :
  exists trace r,
    customFetch netAlways302 freshState "http://a.example/" noOptions
    = Some (mkState false 6, trace, Fulfilled r)
    /\ status r = 302%Z /\ ok r = false
    /\ In (WarnMaxRedirects 5 "http://b.example/next") trace.
Proof.
  do 2 eexists. split; [vm_compute; reflexivity|].
  repeat split. vm_compute. tauto.
Qed.

(** [text] and [json] of the body [{"a":1}], in either order and twice,
    with a write to the array buffer handed over in between. *)
Example run_accessors :
  let r := buildResponse (plainResponse 200 "OK")
             [list_byte_of_string doc_a1] in
  fst (useAll r (mkView 0 3 7)
         (mkSession [list_byte_of_string ("xyz" ++ doc_a1 ++ "...")] [])
         [Invoke CallJson; Invoke CallArrayBuffer; Overwrite 0 0 Byte.x00;
          Invoke CallText; Invoke CallText; Invoke CallJson])
  = [Some (JsonAnswer (Fulfilled (JObject [("a", JNumber 1)])));
     Some (BytesAnswer (Fulfilled (list_byte_of_string doc_a1)));
     None;
     Some (TextAnswer (Fulfilled doc_a1));
     Some (TextAnswer (Fulfilled doc_a1));
     Some (JsonAnswer (Fulfilled (JObject [("a", JNumber 1)])))].
Proof. vm_compute. reflexivity. Qed.

(** A server that never answers, one retry allowed: the timeout starts two
    retries, so three requests are made, after two sleeps of 100 ms, and the
    call is rejected with the synthesized error. *)
Example run_timeout_doubles_retries :
  exists st trace,
    customFetch netNeverAnswers freshState "http://a.example/" oneRetry
    = Some (st, trace, RejectedWith timeoutError)
    /\ count isDispatch trace = 3%nat
    /\ filter isSleep trace = [Sleep 100; Sleep 100].
Proof. do 2 eexists. split; [vm_compute; reflexivity | split; reflexivity]. Qed.

(** With four retries allowed, thirty-one requests. *)
Example run_timeout_four_retries :
  exists st trace result,
    customFetch netNeverAnswers freshState "http://a.example/" fourRetries
    = Some (st, trace, result)
    /\ count isDispatch trace = 31%nat
    /\ count isSleep trace = 30%nat.
Proof.
  do 3 eexists. split; [vm_compute; reflexivity | split; reflexivity].
Qed.

(** The call settles as the first of the two retries to settle: rejected
    when that is the one that was reset, fulfilled when it is the one that
    was answered; all three requests are made either way. *)
Example run_timeout_race :
  exists st trace trace' r,
    customFetch (netTimeoutThenRace Former) freshState "http://a.example/"
      (mkOptions (Some 1%Z) None None None None None Absent None)
    = Some (st, trace, RejectedWith connectionReset)
    /\ customFetch (netTimeoutThenRace Latter) freshState "http://a.example/"
         (mkOptions (Some 1%Z) None None None None None Absent None)
       = Some (st, trace', Fulfilled r)
    /\ count isDispatch trace = 3%nat
    /\ count isDispatch trace' = 3%nat.
Proof.
  do 4 eexists. split; [vm_compute; reflexivity|].
  split; [vm_compute; reflexivity | split; reflexivity].
Qed.

(** A request that [protocol.request] refuses is not made: the call is
    rejected with what was thrown. *)
Example run_refused :
  makeRequest netRefuses freshState callA
  = Some (mkState false 1, [], RejectedWith invalidHeader).
Proof. reflexivity. Qed.


(** C6, on a call answered 200 and on a call answered 404. *)
Lemma ok_iff_status_2xx_witness :
  ok (buildResponse (plainResponse 200 "") []) = true
  /\ ok (buildResponse (plainResponse 404 "") []) = false.
Proof.
  split.
  - destruct (ok_iff_status_2xx (host := exampleHost) (netStatus 200)
                freshState (mkState false 1)
                callA [Dispatch (clientRequest callA urlA)]
                (buildResponse (plainResponse 200 "") []) eq_refl)
      as (n & req & res & data & _ & _ & _ & Hok & _).
    apply Hok. cbn. lia.
  - destruct (ok_iff_status_2xx (host := exampleHost) (netStatus 404)
                freshState (mkState false 1)
                callA [Dispatch (clientRequest callA urlA)]
                (buildResponse (plainResponse 404 "") []) eq_refl)
      as (n & req & res & data & _ & _ & _ & _ & _ & Hout).
    apply Hout. right. cbn. lia.
Defined.

(** C10, on a response without status line. *)
Lemma absent_status_code_witness :
  exists r,
    makeRequest netNoStatus freshState callA
    = Some (mkState false 1, [Dispatch (clientRequest callA urlA)],
            Fulfilled r)
    /\ status r = 0%Z
    /\ statusText r = ""
    /\ ok r = false.
Proof.
  exact (absent_status_code (host := exampleHost) netNoStatus freshState
           callA urlA
           (mkIncoming None []) [] eq_refl eq_refl eq_refl).
Defined.

(** C4, on the sixth response of a server that always answers 302. *)
Lemma redirect_limit_returns_response_witness :
  makeRequest netAlways302 (mkState false 5)
    (mkCall "http://b.example/next" noOptions 0 5)
  = Some (mkState false 6,
          [Dispatch
             (clientRequest (mkCall "http://b.example/next" noOptions 0 5) urlB);
           WarnMaxRedirects 5 "http://b.example/next"],
          Fulfilled
            (buildResponse (redirectTo 302 "http://b.example/next") []))
  /\ ok (buildResponse (redirectTo 302 "http://b.example/next") []) = false
  /\ status (buildResponse (redirectTo 302 "http://b.example/next") [])
     = 302%Z.
Proof.
  apply (redirect_limit_returns_response netAlways302 (mkState false 5)
           (mkCall "http://b.example/next" noOptions 0 5) urlB
           (redirectTo 302 "http://b.example/next") []);
    try reflexivity.
  discriminate.
Defined.

(** C3, on a 302 to another host: the redirect is followed. *)
Lemma redirect_followed_iff_witness :
  snd (attempt netMovedThenOk freshState callA)
  = Redirect (mkCall "http://b.example/next" noOptions 0 1).
Proof.
  apply (proj2
           (redirect_followed_iff (host := exampleHost) netMovedThenOk freshState callA urlA
              (redirectTo 302 "http://b.example/next") []
              (mkCall "http://b.example/next" noOptions 0 1)
              eq_refl eq_refl)).
  repeat split. exists urlB. repeat split.
Defined.

(** C3 as stated fails: a 302 whose Location header is present but empty,
    with [followRedirects] on and no redirect followed yet, is not followed;
    the call is fulfilled with the 302 itself after a single request. *)
Lemma empty_location_is_not_followed :
  isRedirectStatus (orDefault (statusCode (redirectTo 302 "")) 0%Z) = true
  /\ followRedirectsOf (options callA) = true
  /\ obj_get "location" (res_headers (redirectTo 302 "")) = Some (HString "")
  /\ (Z.of_nat (redirectCount callA) < maxRedirectsOf (options callA))%Z
  /\ makeRequest (fun _ _ => Responded (redirectTo 302 "") []) freshState callA
     = Some (mkState false 1,
             [Dispatch (clientRequest callA urlA)],
             Fulfilled (buildResponse (redirectTo 302 "") [])).
Proof. repeat split. Qed.

(** C2, on a POST answered 303: the forwarded options keep the caller's
    other headers and drop Content-Type. *)
Lemma redirect_forwarding_witness :
  headers (redirectOptions303 postOptions)
  = Present [("CF-Access-Client-Id", "id"); ("X-Custom", "1")].
Proof.
  apply (proj2
           (proj1
              (redirect_forwarding (host := exampleHost)
                 (mkCall "http://a.example/" postOptions 0 0)
                 (redirectTo 303 "http://b.example/next") []
                 (mkCall "http://b.example/next"
                    (redirectOptions303 postOptions) 0 1)
                 eq_refl)
              eq_refl)
           [("Content-Type", "application/json");
            ("CF-Access-Client-Id", "id");
            ("X-Custom", "1")]
           eq_refl).
  repeat constructor; simpl; intuition discriminate.
Defined.



(** The other names of that request go out in lower case. *)
Example run_header_names :
  map fst
    (headerLines
       (clientRequest (mkCall "http://a.example/" postOptions 0 0) urlA))
  = ["content-type"; "CF-Access-Client-Id"; "x-custom"].
Proof. reflexivity. Qed.

(** C7, on a call answered 500: no retry, the response is handed over. *)
Lemma retry_only_on_transport_errors_witness :
  exists trace,
    makeRequest (netStatus 500) freshState callA
    = Some (mkState false 1, trace,
            Fulfilled (buildResponse (plainResponse 500 "") [])).
Proof.
  destruct (retry_only_on_transport_errors (host := exampleHost) (netStatus 500) freshState callA
              urlA eq_refl) as (_ & _ & H).
  destruct (H (plainResponse 500 "") [] eq_refl) as (_ & Hfinal & _).
  exact (Hfinal eq_refl).
Defined.

(** C7 as stated fails: the only attempt is answered by a complete HTTP
    response, a 302 whose Location does not resolve, and the call is
    rejected with the [TypeError] of the URL constructor. *)
Lemma unresolvable_location_rejects_call :
  netMovedNowhere 0 (clientRequest callA urlA)
  = Responded (redirectTo 302 "http://[") []
  /\ makeRequest netMovedNowhere freshState callA
     = Some (mkState false 1,
             [Dispatch (clientRequest callA urlA);
              LogFollowingRedirect 1 5 "http://a.example/" "http://[";
              Destroy],
             RejectedWith
               (mkError "TypeError" "Invalid URL" (Some "ERR_INVALID_URL"))).
Proof. split; reflexivity. Qed.

(** Nor is a followed redirect handed to the caller: the call goes on to a
    second request and is fulfilled with the 200 that answers it. *)
Example run_followed_redirect :
  snd (attempt netMovedThenOk freshState callA)
  = Redirect (mkCall "http://b.example/next" noOptions 0 1)
  /\ makeRequest netMovedThenOk freshState callA
     = Some (mkState false 2,
             [Dispatch (clientRequest callA urlA);
              LogFollowingRedirect 1 5 "http://a.example/"
                "http://b.example/next";
              Destroy;
              Dispatch
                (clientRequest (mkCall "http://b.example/next" noOptions 0 1)
                   urlB)],
             Fulfilled
               (buildResponse (plainResponse 200 "OK")
                  [list_byte_of_string doc_a1])).
Proof. split; reflexivity. Qed.

(** After a 303 the [headers] option is always an object, which replaces the
    default header set whole: a caller that gave no headers has the defaults
    on its first request and none on the forwarded one. *)
Example run_see_other_without_caller_headers :
  exists st r,
    makeRequest netSeeOther freshState callA
    = Some (st,
            [Dispatch (clientRequest callA urlA);
             LogFollowingRedirect 1 5 "http://a.example/"
               "http://b.example/next";
             Destroy;
             Dispatch
               {| req_url := "http://b.example/next";
                  req_method := "GET";
                  req_headers := [];
                  req_timeout := 8000;
                  req_tls := None;
                  req_body := None |}],
            Fulfilled r)
    /\ keys (req_headers (clientRequest callA urlA))
       = ["user-agent"; "accept"; "accept-encoding"; "connection"].
Proof. do 2 eexists. split; reflexivity. Qed.

(** C8, on a 200 with an empty body: the call is fulfilled, the [json]
    accessor is rejected. *)
Lemma json_failure_only_on_access_witness :
  exists detail,
    json (buildResponse (plainResponse 200 "") [])
    = RejectedWith
        (mkError "Error" ("Failed to parse JSON: " ++ detail) None).
Proof.
  exact (proj2
           (json_failure_only_on_access (netStatus 200) freshState callA urlA
              (plainResponse 200 "") [] eq_refl eq_refl eq_refl)).
Defined.

(** C9, on a 200 whose body [{"a":1}] comes in two chunks: the text, the
    JSON value, and a session that reads, takes the bytes, overwrites them
    and reads again. *)
Lemma body_accessors_repeatable_witness :
  exists st' trace r,
    makeRequest netChunked freshState callA = Some (st', trace, Fulfilled r)
    /\ responseBody r = list_byte_of_string doc_a1
    /\ text r = Fulfilled doc_a1
    /\ json r = Fulfilled (JObject [("a", JNumber 1)])
    /\ fst (useAll r (mkView 0 0 7) (mkSession [responseBody r] [])
              [Invoke CallArrayBuffer; Overwrite 0 1 Byte.x00; Invoke CallText])
       = [Some (BytesAnswer (Fulfilled (list_byte_of_string doc_a1)));
          None;
          Some (TextAnswer (Fulfilled doc_a1))].
Proof.
  eexists _, _, _. split; [vm_compute; reflexivity|].
  destruct (body_accessors_repeatable (host := exampleHost) netChunked
              freshState _ callA _ _ eq_refl)
    as (n & req & res & data & _ & Hnet & Hbody & Huse & Hdoc).
  injection Hnet as <- <-.
  destruct (Hdoc [list_byte_of_string ("{" ++ dquote ++ "a");
                  list_byte_of_string (dquote ++ ":1}")]
              (JObject [("a", JNumber 1)])
              eq_refl eq_refl eq_refl eq_refl) as [Htext Hjson].
  split; [exact Hbody|]. split; [exact Htext|]. split; [exact Hjson|].
  exact (proj1 (Huse [list_byte_of_string doc_a1] (mkView 0 0 7)
                  [Invoke CallArrayBuffer; Overwrite 0 1 Byte.x00; Invoke CallText]
                  (Nat.lt_0_succ 0) eq_refl)).
Defined.

(** * Runs for the further properties *)

(** X1, on three resets followed by a 200, and on a server that never
    answers: three requests with one retry allowed. *)
Lemma budgets_are_respected_witness :
  (exists st' trace result,
     makeRequest (netResetThenOk 3) freshState callA = Some (st', trace, result)
     /\ (count isSleep trace <= retriesLeft callA)%nat
     /\ (count isFollow trace <= redirectsLeft callA)%nat
     /\ (attempts st'
         <= attempts freshState + 1 + count isSleep trace
            + count isFollow trace)%nat)
  /\ (exists st' trace result,
        makeRequest netNeverAnswers freshState
          (mkCall "http://a.example/" oneRetry 0 0)
        = Some (st', trace, result)
        /\ (count isDispatch trace + 1 = 2 ^ 2)%nat
        /\ (count isSleep trace + 2 = 2 ^ 2)%nat).
Proof.
  split.
  - eexists _, _, _. split; [vm_compute; reflexivity|].
    eapply (proj1 (proj2 (budgets_are_respected (host := exampleHost)
                            (netResetThenOk 3) freshState
                            _ callA _ _ eq_refl))).
    intros n req first. unfold netResetThenOk.
    destruct (n <? 3)%nat; discriminate.
  - eexists _, _, _. split; [vm_compute; reflexivity|].
    eapply (proj2 (proj2 (budgets_are_respected (host := exampleHost)
                            netNeverAnswers freshState
                            _ (mkCall "http://a.example/" oneRetry 0 0) _ _
                            eq_refl))
              (fun n req => ex_intro _ Latter eq_refl) urlA eq_refl).
Defined.

(** X2, on the same run: sleeps of 500, 1000 and 1500 ms. *)
Lemma backoff_schedule_witness :
  exists st' trace result,
    makeRequest (netResetThenOk 3) freshState callA = Some (st', trace, result)
    /\ filter isSleep trace
       = map (fun k => Sleep (retryDelayOf (options callA) * (Z.of_nat k + 1)))
           (seq (retryCount callA) (count isSleep trace))
    /\ filter isSleep trace = [Sleep 500; Sleep 1000; Sleep 1500].
Proof.
  eexists _, _, _. split; [vm_compute; reflexivity|]. split.
  - eapply (proj2 (backoff_schedule (host := exampleHost) (netResetThenOk 3)
                     freshState _ callA _ _ eq_refl)).
    intros n req first. unfold netResetThenOk.
    destruct (n <? 3)%nat; discriminate.
  - reflexivity.
Defined.

(** X3, on an https call that is reset until its retries run out, with the
    override on: one warning for three requests. *)
Lemma insecure_tls_warning_at_most_once_witness :
  exists st' trace result,
    @makeRequest loadedHost netAlwaysReset freshState callS
    = Some (st', trace, result)
    /\ count isTlsWarning trace = 1%nat
    /\ count isDispatch trace = 3%nat
    /\ hasShownInsecureTlsWarning st' = true.
Proof.
  eexists _, _, _. split; [vm_compute; reflexivity|].
  split; [reflexivity|]. split; [reflexivity|].
  apply (insecure_tls_warning_at_most_once (host := loadedHost) netAlwaysReset
           freshState _ callS _ _ eq_refl).
  reflexivity.
Defined.


(** X5, on a server that always answers 302, redirects off. *)
Lemma redirects_off_follows_nothing_witness :
  exists st' trace result,
    makeRequest netAlways302 freshState callNoFollow
    = Some (st', trace, result)
    /\ (count isFollow trace = 0%nat /\ count isLimitWarning trace = 0%nat)
    /\ attempts st' = 1%nat.
Proof.
  eexists _, _, _. split; [vm_compute; reflexivity|].
  split; [|reflexivity].
  eapply (redirects_off_follows_nothing netAlways302 freshState _
            callNoFollow);
    [vm_compute; reflexivity | reflexivity].
Defined.

(** X9, on a response with two cookies. *)
Lemma response_headers_are_flattened_witness :
  resp_headers (buildResponse cookieResponse [])
  = [("content-type", "text/html"); ("set-cookie", "a=1, b=2")].
Proof.
  apply (response_headers_are_flattened cookieResponse []).
  repeat constructor; simpl; intuition discriminate.
Defined.

(** X10 to X13, on ISO dates. *)
Lemma ensureUTCTimezone_cases_witness :
  Common.ensureUTCTimezone "2024-01-01T00:00:00.000Z"
  = "2024-01-01T00:00:00.000 +0000"
  /\ Common.ensureUTCTimezone "2024-01-01 00:00:00" = "2024-01-01 00:00:00 +0000".
Proof.
  split.
  - exact (proj1 (proj2 (CommonFacts.ensureUTCTimezone_cases
                           "2024-01-01T00:00:00.000" eq_refl))).
  - exact (proj2 (proj2 (proj2 (CommonFacts.ensureUTCTimezone_cases
                                  "2024-01-01 00:00:00" eq_refl)))
             eq_refl eq_refl).
Defined.

Lemma ensureUTCTimezone_ends_with_offset_witness :
  Common.endsWithPlainOffset
    (Common.ensureUTCTimezone "2024-01-01T08:00:00+08:00") = true
  /\ Common.includesZ
       (Common.ensureUTCTimezone "2024-01-01T08:00:00+08:00") = false.
Proof.
  exact (CommonFacts.ensureUTCTimezone_ends_with_offset
           "2024-01-01T08:00:00+08:00" eq_refl eq_refl).
Defined.

Lemma ensureUTCTimezone_idempotent_witness :
  Common.ensureUTCTimezone (Common.ensureUTCTimezone "2024-01-01T00:00:00Z")
  = Common.ensureUTCTimezone "2024-01-01T00:00:00Z".
Proof.
  exact (CommonFacts.ensureUTCTimezone_idempotent "2024-01-01T00:00:00Z"
           eq_refl).
Defined.

Lemma ensureUTCTimezone_replaces_first_Z_witness :
  Common.ensureUTCTimezone "2024-01-01TZ00:00:00Z"
  = "2024-01-01T +000000:00:00Z".
Proof.
  exact (proj1 (CommonFacts.ensureUTCTimezone_replaces_first_Z
                  "2024-01-01T" "00:00:00" eq_refl)).
Defined.

(** X15, on an environment that sets other variables only. *)
Lemma requestPolicy_range_and_defaults_witness :
  Common.requestPolicy exampleNumber otherEnv
  = Some (Common.mkPolicy 3 500 8000).
Proof.
  exact (proj2 (CommonFacts.requestPolicy_range_and_defaults exampleNumber
                  otherEnv)
           (or_introl eq_refl) (or_introl eq_refl) (or_intror eq_refl)).
Defined.

(** X17 to X19, on the example environment. *)
Lemma loaded_policy_bounds_a_call_witness :
  exists st' trace result,
    @customFetch loadedHost netAlwaysReset freshState "https://a.example/"
      noOptions
    = Some (st', trace, result)
    /\ (attempts st' + 1 <= attempts freshState + 7 * 2 ^ 10)%nat
    /\ (count isSleep trace + 2 <= 2 ^ 11)%nat
    /\ (forall ms, In (Sleep ms) trace -> (100 <= ms <= 100000)%Z)
    /\ (neverTimesOut netAlwaysReset ->
        (attempts st' <= attempts freshState + 16)%nat
        /\ (count isSleep trace <= 10)%nat).
Proof.
  eexists _, _, _. split; [vm_compute; reflexivity|].
  apply (CommonFacts.loaded_policy_bounds_a_call exampleTrim exampleNumber
           exampleHost "1.0.0" exampleEnv exampleExports netAlwaysReset
           freshState _ "https://a.example/" noOptions _ _
           eq_refl eq_refl eq_refl eq_refl eq_refl).
Defined.

Lemma default_headers_on_the_wire_witness :
  req_headers (@clientRequest loadedHost callS urlS)
  = [("user-agent",
      "Kuma-Mieru/1.0.0 (https://github.com/Alice39s/kuma-mieru)");
     ("accept", "text/html,application/json,*/*");
     ("accept-encoding", "");
     ("connection", "keep-alive");
     ("CF-Access-Client-Id", "id-123")].
Proof.
  exact (proj1 (CommonFacts.default_headers_on_the_wire exampleTrim
                  exampleNumber exampleHost "1.0.0" exampleEnv exampleExports
                  callS urlS eq_refl)
           eq_refl).
Defined.

Lemma certificate_verification_follows_env_witness :
  match req_tls (@clientRequest loadedHost callS urlS) with
  | Some tls =>
      protocol urlS = "https:"
      /\ minVersion tls = "TLSv1.2" /\ maxVersion tls = "TLSv1.3"
      /\ (rejectUnauthorized tls = false <->
          exists s, exampleEnv "ALLOW_INSECURE_TLS" = Some s
                    /\ toLowerCase s = "true")
  | None => protocol urlS <> "https:"
  end.
Proof.
  exact (proj2 (CommonFacts.certificate_verification_follows_env exampleTrim
                  exampleNumber exampleHost "1.0.0" exampleEnv exampleExports
                  callS urlS eq_refl)).
Defined.

(** X23, on a 303 answering a call without headers of its own. *)
Lemma see_other_forwards_only_caller_headers_witness :
  req_headers
    (clientRequest
       (mkCall "http://b.example/next" (redirectOptions303 noOptions) 0 1) urlB)
  = [].
Proof.
  apply (proj2 (see_other_forwards_only_caller_headers (host := exampleHost)
                  callA (redirectTo 303 "http://b.example/next") [] _ urlB
                  eq_refl eq_refl)).
  intros h. discriminate.
Defined.
